(** * Pressure sensor driver: ConvertADCReadingToPressure

    A shallow embedding of [read_pressure_sensor.c] and the properties of its
    conversion routine.

    Data model of the C program, as compiled by the repository's own build
    (gcc on Debian, LP64): [int] and [int32_t] are 32-bit signed, [int16_t]
    is 16-bit signed, [uint16_t] is 16-bit unsigned and promotes to [int],
    [int64_t] is 64-bit signed, and [sizeof] yields a 64-bit unsigned
    [size_t].  Machine integers are mathematical integers ([Z]) together with
    the range checks and wrap-arounds that the C operations perform:
    signed overflow, division by zero and an array access outside the table
    are faults of the model; conversions to a narrower or unsigned type
    wrap. *)

From Stdlib Require Import ZArith List Lia Bool.
Import ListNotations.
Local Open Scope Z_scope.

(** ** The calibration table *)

Record PressureTableEntry : Type := mkEntry
  { pressure : Z   (* int32_t, physical pressure times FIXED_POINT_ARITH *)
  ; adc : Z        (* uint16_t *)
  }.

Definition pressureTable : list PressureTableEntry :=
  [ mkEntry 10000 1696;  mkEntry 11000 1909;  mkEntry 12000 2118
  ; mkEntry 13000 2272;  mkEntry 14000 2366;  mkEntry 15000 2448
  ; mkEntry 16000 2570;  mkEntry 17000 2745;  mkEntry 18000 2931
  ; mkEntry 19000 3073;  mkEntry 20000 3151;  mkEntry 21000 3200
  ; mkEntry 22000 3278;  mkEntry 23000 3411;  mkEntry 24000 3573
  ; mkEntry 25000 3706;  mkEntry 26000 3777;  mkEntry 27000 3808
  ; mkEntry 28000 3853;  mkEntry 29000 3955;  mkEntry 30000 4100
  ; mkEntry 31000 4236;  mkEntry 32000 4316;  mkEntry 33000 4348
  ; mkEntry 34000 4382;  mkEntry 35000 4468;  mkEntry 36000 4610
  ; mkEntry 37000 4762;  mkEntry 38000 4871;  mkEntry 39000 4927
  ; mkEntry 40000 4971;  mkEntry 41000 5058;  mkEntry 42000 5210
  ; mkEntry 43000 5390;  mkEntry 44000 5541;  mkEntry 45000 5639
  ; mkEntry 46000 5710;  mkEntry 47000 5812;  mkEntry 48000 5979
  ; mkEntry 49000 6190;  mkEntry 50000 6389;  mkEntry 51000 6534
  ; mkEntry 52000 6641;  mkEntry 53000 6762;  mkEntry 54000 6943
  ; mkEntry 55000 7177;  mkEntry 56000 7414;  mkEntry 57000 7604
  ; mkEntry 58000 7743;  mkEntry 59000 7877;  mkEntry 60000 8060
  ; mkEntry 61000 8302;  mkEntry 62000 8560;  mkEntry 63000 8778
  ; mkEntry 64000 8938;  mkEntry 65000 9074;  mkEntry 66000 9243
  ; mkEntry 67000 9470;  mkEntry 68000 9726;  mkEntry 69000 9954
  ; mkEntry 70000 10119; mkEntry 71000 10244; mkEntry 72000 10383
  ; mkEntry 73000 10577; mkEntry 74000 10810; mkEntry 75000 11028
  ; mkEntry 76000 11187; mkEntry 77000 11292; mkEntry 78000 11394
  ; mkEntry 79000 11542; mkEntry 80000 11739; mkEntry 81000 11937
  ; mkEntry 82000 12085; mkEntry 83000 12170; mkEntry 84000 12237
  ; mkEntry 85000 12340; mkEntry 86000 12498; mkEntry 87000 12675
  ; mkEntry 88000 12815; mkEntry 89000 12893; mkEntry 90000 12938
  ; mkEntry 91000 13007; mkEntry 92000 13135; mkEntry 93000 13299
  ; mkEntry 94000 13444; mkEntry 95000 13531; mkEntry 96000 13575
  ; mkEntry 97000 13631; mkEntry 98000 13744; mkEntry 99000 13908
  ; mkEntry 100000 14073 ].

(** [#define FIXED_POINT_ARITH 100] *)
Definition FIXED_POINT_ARITH : Z := 100.

(** [sizeof(pressureTable) / sizeof(pressureTable[0])], a [size_t] constant
    (91 for the table above).

    The macro is
    [#define TABLE_SIZE (sizeof(pressureTable) / sizeof(pressureTable[0])) - 1]
    and its body is not parenthesised as a whole, so every use below is the
    textual expansion [(TABLE_ENTRIES) - 1] placed in its context: as an
    array index, an initialiser or a comparison bound it is
    [TABLE_ENTRIES - 1]; as a divisor, [x / TABLE_SIZE] parses as
    [(x / TABLE_ENTRIES) - 1]. *)
Definition TABLE_ENTRIES : Z := Z.of_nat (length pressureTable).

(** The value of the macro where it stands alone (index, initialiser,
    bound). *)
Definition TABLE_SIZE : Z := TABLE_ENTRIES - 1.

(** ** Machine integers *)

Definition in_int32 (z : Z) : bool := (- 2 ^ 31 <=? z) && (z <=? 2 ^ 31 - 1).
Definition in_int64 (z : Z) : bool := (- 2 ^ 63 <=? z) && (z <=? 2 ^ 63 - 1).

(** Conversion to a signed type of [w] bits (two's complement wrap-around,
    as gcc defines it). *)
Definition cast_signed (w : Z) (z : Z) : Z :=
  (z + 2 ^ (w - 1)) mod 2 ^ w - 2 ^ (w - 1).

Definition cast_int16 : Z -> Z := cast_signed 16.
Definition cast_int32 : Z -> Z := cast_signed 32.
Definition cast_int64 : Z -> Z := cast_signed 64.

(** Conversion to [size_t] / [unsigned long]. *)
Definition cast_uint64 (z : Z) : Z := z mod 2 ^ 64.

(** ** Faults, outcomes and the computation monad

    The only memory the routine touches is the array that
    [pressureTablePtr] points to; it is the state threaded through the
    computation.  A computation either finishes with a value and the
    memory it leaves behind, or stops with a fault. *)

Inductive fault : Type :=
| OutOfBounds      (* array access outside the object *)
| DivisionByZero
| SignedOverflow   (* result of a signed operation not representable *)
| OutOfFuel.       (* the loop budget of the model is exhausted *)

Inductive outcome (A : Type) : Type :=
| Done (a : A)
| Fault (f : fault).

Arguments Done {A} a.
Arguments Fault {A} f.

Definition memory : Type := list PressureTableEntry.

Definition M (A : Type) : Type := memory -> outcome (A * memory).

Definition ret {A : Type} (a : A) : M A := fun m => Done (a, m).

Definition raise {A : Type} (f : fault) : M A := fun _ => Fault f.

Definition bind {A B : Type} (c : M A) (k : A -> M B) : M B :=
  fun m => match c m with
           | Done (a, m') => k a m'
           | Fault f => Fault f
           end.

Declare Scope conv_scope.
Delimit Scope conv_scope with conv.
Notation "x <- c ;; k" := (bind c (fun x => k))
  (at level 100, c at next level, right associativity) : conv_scope.
Local Open Scope conv_scope.

(** The value a computation returns, with the final memory dropped. *)
Definition value_of {A : Type} (o : outcome (A * memory)) : outcome A :=
  match o with
  | Done (a, _) => Done a
  | Fault f => Fault f
  end.

(** *** Memory reads: [pressureTablePtr[i].adc] and
    [pressureTablePtr[i].pressure] *)

Definition entry_at (m : memory) (i : Z) : option PressureTableEntry :=
  if i <? 0 then None else nth_error m (Z.to_nat i).

Definition load_entry (i : Z) : M PressureTableEntry :=
  fun m =>
    match entry_at m i with
    | Some e => Done (e, m)
    | None => Fault OutOfBounds
    end.

Definition load_adc (i : Z) : M Z := e <- load_entry i ;; ret (adc e).
Definition load_pressure (i : Z) : M Z := e <- load_entry i ;; ret (pressure e).

(** *** Signed arithmetic in [int] and in [int64_t] *)

Definition check32 (z : Z) : M Z :=
  if in_int32 z then ret z else raise SignedOverflow.

Definition check64 (z : Z) : M Z :=
  if in_int64 z then ret z else raise SignedOverflow.

Definition add32 (a b : Z) : M Z := check32 (a + b).
Definition sub32 (a b : Z) : M Z := check32 (a - b).
Definition mul32 (a b : Z) : M Z := check32 (a * b).
Definition div32 (a b : Z) : M Z :=
  if b =? 0 then raise DivisionByZero else check32 (Z.quot a b).

Definition add64 (a b : Z) : M Z := check64 (a + b).
Definition sub64 (a b : Z) : M Z := check64 (a - b).
Definition mul64 (a b : Z) : M Z := check64 (a * b).
Definition div64 (a b : Z) : M Z :=
  if b =? 0 then raise DivisionByZero else check64 (Z.quot a b).

(** [x / TABLE_SIZE] for an [int64_t] [x]: the macro expands to
    [x / (sizeof(pressureTable) / sizeof(pressureTable[0])) - 1].  The
    operands are converted to [size_t], the unsigned quotient by the number
    of entries is taken first, then 1 is subtracted (unsigned, wrapping),
    and the result is converted back to [int64_t] by the assignment. *)
Definition div_TABLE_SIZE (x : Z) : M Z :=
  if TABLE_ENTRIES =? 0 then raise DivisionByZero
  else ret (cast_int64 (cast_uint64 (cast_uint64 x / TABLE_ENTRIES - 1))).

(** ** The binary search of the in-range path *)

(** The locals that live across iterations of the [while] loop. *)
Record search : Type := mkSearch
  { searchWindowStart : Z   (* int16_t *)
  ; searchWindowEnd : Z     (* int16_t *)
  ; midPoint : Z            (* int16_t *)
  ; readingFound : Z        (* int16_t *)
  ; found_pressure : Z      (* the function's [int32_t pressure] *)
  }.

(** [searchWindowStart + (searchWindowEnd - searchWindowStart) / 2],
    computed in [int] and stored in an [int16_t]. *)
Definition mid_of (s e : Z) : M Z :=
  w <- sub32 e s ;;
  h <- div32 w 2 ;;
  r <- add32 s h ;;
  ret (cast_int16 r).

(** [P1 + ((P2 - P1) / (ADC2 - ADC1)) * (adcReading - ADC1)], in [int]. *)
Definition interpolate (adcReading P1 P2 ADC1 ADC2 : Z) : M Z :=
  dP <- sub32 P2 P1 ;;
  dA <- sub32 ADC2 ADC1 ;;
  q <- div32 dP dA ;;
  off <- sub32 adcReading ADC1 ;;
  t <- mul32 q off ;;
  add32 P1 t.

(** One execution of the body of [while (readingFound == 0)]. *)
Definition loop_body (adcReading : Z) (s : search) : M search :=
  a <- load_adc (midPoint s) ;;
  if adcReading =? a then
    p <- load_pressure (midPoint s) ;;
    ret (mkSearch (searchWindowStart s) (searchWindowEnd s) (midPoint s) 1 p)
  else if midPoint s =? searchWindowStart s then
    P1 <- load_pressure (searchWindowStart s) ;;
    P2 <- load_pressure (searchWindowEnd s) ;;
    ADC1 <- load_adc (searchWindowStart s) ;;
    ADC2 <- load_adc (searchWindowEnd s) ;;
    p <- interpolate adcReading P1 P2 ADC1 ADC2 ;;
    ret (mkSearch (searchWindowStart s) (searchWindowEnd s) (midPoint s) 1 p)
  else if adcReading <? a then
    mp <- mid_of (searchWindowStart s) (midPoint s) ;;
    ret (mkSearch (searchWindowStart s) (midPoint s) mp
                  (readingFound s) (found_pressure s))
  else if a <? adcReading then
    mp <- mid_of (midPoint s) (searchWindowEnd s) ;;
    ret (mkSearch (midPoint s) (searchWindowEnd s) mp
                  (readingFound s) (found_pressure s))
  else ret s.

(** [while (readingFound == 0) { ... }] with a budget of iterations. *)
Fixpoint search_loop (fuel : nat) (adcReading : Z) (s : search) : M search :=
  if readingFound s =? 0 then
    match fuel with
    | O => raise OutOfFuel
    | S fuel' =>
        s' <- loop_body adcReading s ;;
        search_loop fuel' adcReading s'
    end
  else ret s.

(** The locals as initialised on entry to the in-range branch. *)
Definition search_init : M search :=
  mp <- mid_of 0 (cast_int16 TABLE_SIZE) ;;
  ret (mkSearch 0 (cast_int16 TABLE_SIZE) mp 0 0).

(** The in-range branch: end points first, then the search. *)
Definition in_range_path (fuel : nat) (adcReading : Z) : M Z :=
  s0 <- search_init ;;
  a0 <- load_adc 0 ;;
  if adcReading =? a0 then load_pressure 0
  else
    aN <- load_adc TABLE_SIZE ;;
    if adcReading =? aN then load_pressure TABLE_SIZE
    else
      s <- search_loop fuel adcReading s0 ;;
      ret (found_pressure s).

(** ** The least-squares fit of the out-of-range path *)

Record sums : Type := mkSums
  { sumOfADC_iTimesP_i : Z   (* int64_t *)
  ; sumOfADC_i : Z           (* int64_t *)
  ; sumOfP_i : Z             (* int64_t *)
  ; sumOfADC_iSquared : Z    (* int64_t *)
  }.

(** The body of the [for] loop at index [i]. *)
Definition sum_body (i : Z) (acc : sums) : M sums :=
  a <- load_adc i ;;
  p <- load_pressure i ;;
  pu <- div32 p FIXED_POINT_ARITH ;;
  ap <- mul32 a pu ;;
  sxy <- add64 (sumOfADC_iTimesP_i acc) ap ;;
  a' <- load_adc i ;;
  sx <- add64 (sumOfADC_i acc) a' ;;
  p' <- load_pressure i ;;
  pu' <- div32 p' FIXED_POINT_ARITH ;;
  sy <- add64 (sumOfP_i acc) pu' ;;
  a1 <- load_adc i ;;
  a2 <- load_adc i ;;
  aa <- mul32 a1 a2 ;;
  sxx <- add64 (sumOfADC_iSquared acc) aa ;;
  ret (mkSums sxy sx sy sxx).

(** [for (int16_t i = 0; i <= TABLE_SIZE; i++)]: the comparison is made
    in [size_t]. *)
Fixpoint sum_loop (fuel : nat) (i : Z) (acc : sums) : M sums :=
  if cast_uint64 i <=? cast_uint64 (TABLE_ENTRIES - 1) then
    match fuel with
    | O => raise OutOfFuel
    | S fuel' =>
        acc' <- sum_body i acc ;;
        i1 <- add32 i 1 ;;
        sum_loop fuel' (cast_int16 i1) acc'
    end
  else ret acc.

(** The four divisions by [TABLE_SIZE] after the loop. *)
Definition means_of (acc : sums) : M sums :=
  mxy <- div_TABLE_SIZE (sumOfADC_iTimesP_i acc) ;;
  mx <- div_TABLE_SIZE (sumOfADC_i acc) ;;
  my <- div_TABLE_SIZE (sumOfP_i acc) ;;
  mxx <- div_TABLE_SIZE (sumOfADC_iSquared acc) ;;
  ret (mkSums mxy mx my mxx).

(** [slope] and [intercept], from the four quantities after the
    divisions. *)
Definition slope_of (mn : sums) : M Z :=
  xy <- mul64 (sumOfADC_i mn) (sumOfP_i mn) ;;
  cov <- sub64 (sumOfADC_iTimesP_i mn) xy ;;
  num <- mul64 cov FIXED_POINT_ARITH ;;
  xx <- mul64 (sumOfADC_i mn) (sumOfADC_i mn) ;;
  var <- sub64 (sumOfADC_iSquared mn) xx ;;
  div64 num var.

Definition intercept_of (mn : sums) : M Z :=
  a <- mul64 (sumOfADC_iSquared mn) (sumOfP_i mn) ;;
  b <- mul64 (sumOfADC_i mn) (sumOfADC_iTimesP_i mn) ;;
  d <- sub64 a b ;;
  num <- mul64 d FIXED_POINT_ARITH ;;
  xx <- mul64 (sumOfADC_i mn) (sumOfADC_i mn) ;;
  var <- sub64 (sumOfADC_iSquared mn) xx ;;
  div64 num var.

(** The fit: sums, divisions, slope and intercept. *)
Definition least_squares (fuel : nat) : M (Z * Z) :=
  acc <- sum_loop fuel 0 (mkSums 0 0 0 0) ;;
  mn <- means_of acc ;;
  slope <- slope_of mn ;;
  intercept <- intercept_of mn ;;
  ret (slope, intercept).

(** [pressure = slope * adcReading + intercept;] the 64-bit value is
    converted to [int32_t] by the assignment. *)
Definition evaluate_line (slope intercept adcReading : Z) : M Z :=
  t <- mul64 slope adcReading ;;
  v <- add64 t intercept ;;
  ret (cast_int32 v).

Definition out_of_range_path (fuel : nat) (adcReading : Z) : M Z :=
  fit <- least_squares fuel ;;
  evaluate_line (fst fit) (snd fit) adcReading.

(** ** The conversion routine *)

Definition ConvertADCReadingToPressure (fuel : nat) (adcReading : Z) : M Z :=
  lo <- load_adc 0 ;;
  if lo <=? adcReading then
    hi <- load_adc TABLE_SIZE ;;
    if adcReading <=? hi then in_range_path fuel adcReading
    else out_of_range_path fuel adcReading
  else out_of_range_path fuel adcReading.

(** The routine on the table as compiled in, with a loop budget that
    covers both loops. *)
Definition convert (adcReading : Z) : outcome Z :=
  value_of (ConvertADCReadingToPressure 100 adcReading pressureTable).


(** ** Predicates used in the statements *)

(** A computation that leaves the memory as it found it. *)
Definition preserves {A : Type} (c : M A) : Prop :=
  forall m a m', c m = Done (a, m') -> m' = m.

(** The reading passes the range test and is neither end point, so the
    [while] loop is entered. *)
Definition enters_search (adcReading : Z) (m : memory) : Prop :=
  exists lo hi,
    entry_at m 0 = Some lo /\ entry_at m TABLE_SIZE = Some hi /\
    adc lo < adcReading < adc hi.

(** The states of the locals at the head of the [while] loop, as a step
    relation: the initial state, and any state one execution of the body
    leads to from a state in which the loop condition holds. *)
Inductive reached (adcReading : Z) (m : memory) : search -> Prop :=
| reached_init : forall s0,
    enters_search adcReading m ->
    search_init m = Done (s0, m) ->
    reached adcReading m s0
| reached_step : forall s s',
    reached adcReading m s ->
    readingFound s = 0 ->
    loop_body adcReading s m = Done (s', m) ->
    reached adcReading m s'.

(** The two ends of the window hold entries that strictly bracket the
    reading. *)
Definition brackets (adcReading : Z) (m : memory) (s : search) : Prop :=
  exists e1 e2,
    entry_at m (searchWindowStart s) = Some e1 /\
    entry_at m (searchWindowEnd s) = Some e2 /\
    adc e1 < adcReading < adc e2.

(** Invariant of the loop while it is still searching. *)
Definition searching (adcReading : Z) (m : memory) (s : search) : Prop :=
  0 <= searchWindowStart s < searchWindowEnd s /\
  searchWindowEnd s <= TABLE_SIZE /\
  midPoint s =
    searchWindowStart s + Z.quot (searchWindowEnd s - searchWindowStart s) 2 /\
  brackets adcReading m s.

(** The loop has left through the exact-match branch. *)
Definition exact_exit (adcReading : Z) (m : memory) (s : search) : Prop :=
  exists e,
    entry_at m (midPoint s) = Some e /\ adc e = adcReading /\
    found_pressure s = pressure e.

(** The loop has left through the interpolation branch. *)
Definition interpolation_exit (adcReading : Z) (m : memory) (s : search)
  : Prop :=
  searchWindowEnd s = searchWindowStart s + 1 /\
  exists e1 e2,
    entry_at m (searchWindowStart s) = Some e1 /\
    entry_at m (searchWindowEnd s) = Some e2 /\
    adc e1 < adcReading < adc e2 /\
    found_pressure s =
      pressure e1 +
      Z.quot (pressure e2 - pressure e1) (adc e2 - adc e1) *
      (adcReading - adc e1).

(** What holds of every state at the head of the loop. *)
Definition loop_invariant (adcReading : Z) (m : memory) (s : search) : Prop :=
  (readingFound s = 0 /\ searching adcReading m s) \/
  (readingFound s = 1 /\
   (exact_exit adcReading m s \/ interpolation_exit adcReading m s)).

(** The width of the search window. *)
Definition window (s : search) : Z := searchWindowEnd s - searchWindowStart s.

(** Adjacent entries ascend strictly in both fields. *)
Fixpoint ascending (l : list PressureTableEntry) : bool :=
  match l with
  | e1 :: ((e2 :: _) as tl) =>
      (adc e1 <? adc e2) && (pressure e1 <? pressure e2) && ascending tl
  | _ => true
  end.

(** The fields of an entry fit their C types, with the pressure
    non-negative and small enough that differences of pressures fit an
    [int]. *)
Definition entry_in_range (e : PressureTableEntry) : bool :=
  (0 <=? adc e) && (adc e <? 2 ^ 16) &&
  (0 <=? pressure e) && (pressure e <=? 2 ^ 30).

(** What the routine expects of the array it is handed: as many entries
    as the compiled-in table, ascending, every entry in range. *)
Definition table_ok (m : memory) : bool :=
  (Z.of_nat (length m) =? TABLE_ENTRIES) && ascending m &&
  forallb entry_in_range m.

(** The interpolation formula between two entries:
    [P1 + ((P2 - P1) / (ADC2 - ADC1)) * (adcReading - ADC1)], the
    division truncating and taken before the multiplication. *)
Definition interpolation_formula (e1 e2 : PressureTableEntry)
  (adcReading : Z) : Z :=
  pressure e1 +
  Z.quot (pressure e2 - pressure e1) (adc e2 - adc e1) *
  (adcReading - adc e1).

(** Where an in-range reading lies in the table and the value that
    belongs to it: on the segment from entry [i] (inclusive) to entry
    [i + 1] (exclusive), with the interpolated value; or on the last
    entry, with its pressure. *)
Definition located (m : memory) (adcReading v : Z) : Prop :=
  (exists i e1 e2,
      entry_at m i = Some e1 /\ entry_at m (i + 1) = Some e2 /\
      adc e1 <= adcReading < adc e2 /\
      v = interpolation_formula e1 e2 adcReading) \/
  (exists e,
      entry_at m TABLE_SIZE = Some e /\ adcReading = adc e /\
      v = pressure e).

(** *** The least-squares line as the specification words it

    The four sums over the table, each divided by the number of points [N]
    with truncating division, then slope and intercept from the means. *)

Definition spec_sums (tbl : list PressureTableEntry) : sums :=
  fold_left
    (fun acc e =>
       mkSums
         (sumOfADC_iTimesP_i acc
          + adc e * Z.quot (pressure e) FIXED_POINT_ARITH)
         (sumOfADC_i acc + adc e)
         (sumOfP_i acc + Z.quot (pressure e) FIXED_POINT_ARITH)
         (sumOfADC_iSquared acc + adc e * adc e))
    tbl (mkSums 0 0 0 0).

Definition spec_means (N : Z) (s : sums) : sums :=
  mkSums (Z.quot (sumOfADC_iTimesP_i s) N) (Z.quot (sumOfADC_i s) N)
         (Z.quot (sumOfP_i s) N) (Z.quot (sumOfADC_iSquared s) N).

Definition spec_slope (mn : sums) : Z :=
  Z.quot
    ((sumOfADC_iTimesP_i mn - sumOfADC_i mn * sumOfP_i mn) * FIXED_POINT_ARITH)
    (sumOfADC_iSquared mn - sumOfADC_i mn * sumOfADC_i mn).

Definition spec_intercept (mn : sums) : Z :=
  Z.quot
    ((sumOfADC_iSquared mn * sumOfP_i mn
      - sumOfADC_i mn * sumOfADC_iTimesP_i mn) * FIXED_POINT_ARITH)
    (sumOfADC_iSquared mn - sumOfADC_i mn * sumOfADC_i mn).

Definition spec_extrapolate (N : Z) (tbl : list PressureTableEntry)
  (adcReading : Z) : Z :=
  let mn := spec_means N (spec_sums tbl) in
  spec_slope mn * adcReading + spec_intercept mn.

(** ** The interactive harness [main]

    [main] reads numbers with [scanf("%d", &adcReading)], converts each
    non-negative one with the routine on the compiled-in table
    ([PRESSURE_TABLE_PTR]) and prints the result, until a negative number
    is read (return 0) or a read fails (return -1).  The input is the
    sequence of outcomes of the successive [scanf] calls; the output is the
    sequence of [printf] calls. *)

(** The outcome of one [scanf("%d", &adcReading)]: it returns 1 and has
    stored a number, or it returns something else (a matching failure or
    the end of the input). *)
Inductive scan : Type :=
| Scanned (z : Z)
| ScanFailed.

(** One constructor for each [printf] of [main]. *)
Inductive output : Type :=
| Prompt                                   (* "Enter the ADC Sensor ..." *)
| Report (adcReading pressureReading : Z)  (* "ADC Reading: %d, ..." *)
| DivideHint (scale : Z)                   (* "Divide above ... by %d" *)
| AskNext                                  (* "To exit the program, ..." *)
| ScanError.                               (* "Error occured with scanf" *)

(** [while (adcReading >= 0) { ... }]: every iteration ends with one
    [scanf], so the loop is a recursion on the input that is left; an
    exhausted input makes [scanf] fail.  [fuel] is the loop budget of each
    call of the routine. *)
Fixpoint main_loop (fuel : nat) (input : list scan) (adcReading : Z)
  (out : list output) : M (Z * list output) :=
  if 0 <=? adcReading then
    pressureReading <- ConvertADCReadingToPressure fuel adcReading ;;
    match input with
    | Scanned z :: rest =>
        main_loop fuel rest z
          (out ++ [Report adcReading pressureReading;
                   DivideHint FIXED_POINT_ARITH; AskNext])
    | _ =>
        ret (-1, out ++ [Report adcReading pressureReading;
                         DivideHint FIXED_POINT_ARITH; AskNext; ScanError])
    end
  else ret (0, out).

(** [int main()]: the value returned and what was printed. *)
Definition main (fuel : nat) (input : list scan) : M (Z * list output) :=
  match input with
  | Scanned z :: rest => main_loop fuel rest z [Prompt]
  | _ => ret (-1, [Prompt; ScanError])
  end.

(** What [main] prints for the readings [rs] converted to the pressures
    [vs]: three lines for each. *)
Fixpoint transcript (rs vs : list Z) : list output :=
  match rs, vs with
  | r :: rs', v :: vs' =>
      Report r v :: DivideHint FIXED_POINT_ARITH :: AskNext
      :: transcript rs' vs'
  | _, _ => []
  end.

(** ** Further predicates *)

(** A computation that never exhausts the loop budget. *)
Definition within_budget {A : Type} (c : M A) : Prop :=
  forall m, c m <> Fault OutOfFuel.

(** The interpolation with the multiplication taken before the division:
    [P1 + ((P2 - P1) * (adcReading - ADC1)) / (ADC2 - ADC1)]. *)
Definition multiply_first (e1 e2 : PressureTableEntry) (adcReading : Z) : Z :=
  pressure e1 +
  Z.quot ((pressure e2 - pressure e1) * (adcReading - adc e1))
         (adc e2 - adc e1).

(** * Properties *)

(** ** Machine integers *)

Lemma in_int32_iff z : in_int32 z = true <-> - 2 ^ 31 <= z <= 2 ^ 31 - 1.
Proof. unfold in_int32. rewrite andb_true_iff, !Z.leb_le. tauto. Qed.

Lemma in_int64_iff z : in_int64 z = true <-> - 2 ^ 63 <= z <= 2 ^ 63 - 1.
Proof. unfold in_int64. rewrite andb_true_iff, !Z.leb_le. tauto. Qed.

Lemma cast_int16_small z : - 2 ^ 15 <= z < 2 ^ 15 -> cast_int16 z = z.
Proof.
  intros H. unfold cast_int16, cast_signed.
  change (16 - 1) with 15. rewrite Z.mod_small; lia.
Qed.

Lemma cast_int32_small z : - 2 ^ 31 <= z < 2 ^ 31 -> cast_int32 z = z.
Proof.
  intros H. unfold cast_int32, cast_signed.
  change (32 - 1) with 31. rewrite Z.mod_small; lia.
Qed.

Lemma cast_int32_range z : in_int32 (cast_int32 z) = true.
Proof.
  apply in_int32_iff. unfold cast_int32, cast_signed.
  change (32 - 1) with 31.
  pose proof (Z.mod_pos_bound (z + 2 ^ 31) (2 ^ 32) ltac:(lia)). lia.
Qed.

Lemma TABLE_SIZE_value : TABLE_SIZE = 90.
Proof. reflexivity. Qed.

(** ** Inversion of finished computations *)

Lemma bind_Done {A B} (c : M A) (k : A -> M B) m x :
  bind c k m = Done x ->
  exists a m1, c m = Done (a, m1) /\ k a m1 = Done x.
Proof.
  unfold bind. destruct (c m) as [[a m1]|f]; [eauto | discriminate].
Qed.

Lemma ret_Done {A} (a b : A) m m' : ret a m = Done (b, m') -> b = a /\ m' = m.
Proof. unfold ret. intros H. injection H as -> ->. auto. Qed.

Lemma load_entry_Done i m e m' :
  load_entry i m = Done (e, m') -> m' = m /\ entry_at m i = Some e.
Proof.
  unfold load_entry. destruct (entry_at m i); [|discriminate].
  intros H. injection H as -> ->. auto.
Qed.

Lemma load_adc_Done i m a m' :
  load_adc i m = Done (a, m') ->
  m' = m /\ exists e, entry_at m i = Some e /\ a = adc e.
Proof.
  unfold load_adc. intros H.
  apply bind_Done in H as (e & m1 & H1 & H2).
  apply load_entry_Done in H1 as [-> H1]. apply ret_Done in H2 as [-> ->].
  eauto.
Qed.

Lemma load_pressure_Done i m p m' :
  load_pressure i m = Done (p, m') ->
  m' = m /\ exists e, entry_at m i = Some e /\ p = pressure e.
Proof.
  unfold load_pressure. intros H.
  apply bind_Done in H as (e & m1 & H1 & H2).
  apply load_entry_Done in H1 as [-> H1]. apply ret_Done in H2 as [-> ->].
  eauto.
Qed.

Lemma load_adc_entry i m e :
  entry_at m i = Some e -> load_adc i m = Done (adc e, m).
Proof. intros H. unfold load_adc, bind, load_entry. now rewrite H. Qed.

Lemma load_pressure_entry i m e :
  entry_at m i = Some e -> load_pressure i m = Done (pressure e, m).
Proof. intros H. unfold load_pressure, bind, load_entry. now rewrite H. Qed.

Lemma check32_Done z m v m' :
  check32 z m = Done (v, m') -> v = z /\ m' = m /\ in_int32 z = true.
Proof.
  unfold check32. destruct (in_int32 z); [|discriminate].
  intros H. apply ret_Done in H as [-> ->]. auto.
Qed.

Lemma check64_Done z m v m' :
  check64 z m = Done (v, m') -> v = z /\ m' = m /\ in_int64 z = true.
Proof.
  unfold check64. destruct (in_int64 z); [|discriminate].
  intros H. apply ret_Done in H as [-> ->]. auto.
Qed.

Lemma div32_Done a b m v m' :
  div32 a b m = Done (v, m') -> v = Z.quot a b /\ m' = m /\ b <> 0.
Proof.
  unfold div32. destruct (Z.eqb_spec b 0); [discriminate|].
  intros H. apply check32_Done in H as (-> & -> & _). auto.
Qed.

Lemma mid_of_Done s e m v m' :
  mid_of s e m = Done (v, m') ->
  m' = m /\ v = cast_int16 (s + Z.quot (e - s) 2).
Proof.
  unfold mid_of, sub32, add32. intros H.
  apply bind_Done in H as (w & m1 & H1 & H).
  apply check32_Done in H1 as (-> & -> & _).
  apply bind_Done in H as (h & m1 & H1 & H).
  apply div32_Done in H1 as (-> & -> & _).
  apply bind_Done in H as (r & m1 & H1 & H).
  apply check32_Done in H1 as (-> & -> & _).
  apply ret_Done in H as [-> ->]. auto.
Qed.

Lemma interpolate_Done r P1 P2 A1 A2 m v m' :
  interpolate r P1 P2 A1 A2 m = Done (v, m') ->
  m' = m /\ v = P1 + Z.quot (P2 - P1) (A2 - A1) * (r - A1).
Proof.
  unfold interpolate, sub32, add32, mul32. intros H.
  apply bind_Done in H as (dP & m1 & H1 & H).
  apply check32_Done in H1 as (-> & -> & _).
  apply bind_Done in H as (dA & m1 & H1 & H).
  apply check32_Done in H1 as (-> & -> & _).
  apply bind_Done in H as (q & m1 & H1 & H).
  apply div32_Done in H1 as (-> & -> & _).
  apply bind_Done in H as (off & m1 & H1 & H).
  apply check32_Done in H1 as (-> & -> & _).
  apply bind_Done in H as (t & m1 & H1 & H).
  apply check32_Done in H1 as (-> & -> & _).
  apply check32_Done in H as (-> & -> & _). auto.
Qed.

(** ** The routine only reads the table *)

Create HintDb preserves.

Lemma preserves_ret {A} (a : A) : preserves (ret a).
Proof. intros m b m' H. now apply ret_Done in H. Qed.

Lemma preserves_raise {A} f : preserves (@raise A f).
Proof. intros m b m' H. discriminate. Qed.

Lemma preserves_bind {A B} (c : M A) (k : A -> M B) :
  preserves c -> (forall a, preserves (k a)) -> preserves (bind c k).
Proof.
  intros Hc Hk m b m' H.
  apply bind_Done in H as (a & m1 & H1 & H2).
  apply Hc in H1 as ->. now apply Hk in H2.
Qed.

Lemma preserves_load_entry i : preserves (load_entry i).
Proof. intros m e m' H. now apply load_entry_Done in H. Qed.

Lemma preserves_check32 z : preserves (check32 z).
Proof. intros m v m' H. now apply check32_Done in H. Qed.

Lemma preserves_check64 z : preserves (check64 z).
Proof. intros m v m' H. now apply check64_Done in H. Qed.

#[local] Hint Resolve preserves_ret preserves_raise preserves_load_entry
  preserves_check32 preserves_check64 : preserves.

(** Decompose a computation along its binds and conditionals. *)
Ltac preserves_step :=
  first
    [ apply preserves_bind; [ | intro ]
    | match goal with
      | |- preserves (if ?b then _ else _) => destruct b
      end
    | solve [ auto with preserves ] ].

Ltac preserves_all := repeat preserves_step.

Lemma preserves_load_adc i : preserves (load_adc i).
Proof. unfold load_adc. preserves_all. Qed.

Lemma preserves_load_pressure i : preserves (load_pressure i).
Proof. unfold load_pressure. preserves_all. Qed.

Lemma preserves_arith32 a b :
  preserves (add32 a b) /\ preserves (sub32 a b) /\
  preserves (mul32 a b) /\ preserves (div32 a b).
Proof. unfold add32, sub32, mul32, div32. repeat split; preserves_all. Qed.

Lemma preserves_arith64 a b :
  preserves (add64 a b) /\ preserves (sub64 a b) /\
  preserves (mul64 a b) /\ preserves (div64 a b).
Proof. unfold add64, sub64, mul64, div64. repeat split; preserves_all. Qed.

Lemma preserves_add32 a b : preserves (add32 a b).
Proof. apply preserves_arith32. Qed.
Lemma preserves_sub32 a b : preserves (sub32 a b).
Proof. apply preserves_arith32. Qed.
Lemma preserves_mul32 a b : preserves (mul32 a b).
Proof. apply preserves_arith32. Qed.
Lemma preserves_div32 a b : preserves (div32 a b).
Proof. apply preserves_arith32. Qed.
Lemma preserves_add64 a b : preserves (add64 a b).
Proof. apply preserves_arith64. Qed.
Lemma preserves_sub64 a b : preserves (sub64 a b).
Proof. apply preserves_arith64. Qed.
Lemma preserves_mul64 a b : preserves (mul64 a b).
Proof. apply preserves_arith64. Qed.
Lemma preserves_div64 a b : preserves (div64 a b).
Proof. apply preserves_arith64. Qed.

Lemma preserves_div_TABLE_SIZE x : preserves (div_TABLE_SIZE x).
Proof. unfold div_TABLE_SIZE. preserves_all. Qed.

#[local] Hint Resolve preserves_load_adc preserves_load_pressure
  preserves_add32 preserves_sub32 preserves_mul32 preserves_div32
  preserves_add64 preserves_sub64 preserves_mul64 preserves_div64
  preserves_div_TABLE_SIZE : preserves.

Lemma preserves_mid_of s e : preserves (mid_of s e).
Proof. unfold mid_of. preserves_all. Qed.

Lemma preserves_interpolate r P1 P2 A1 A2 :
  preserves (interpolate r P1 P2 A1 A2).
Proof. unfold interpolate. preserves_all. Qed.

#[local] Hint Resolve preserves_mid_of preserves_interpolate : preserves.

Lemma preserves_loop_body r s : preserves (loop_body r s).
Proof. unfold loop_body. preserves_all. Qed.

#[local] Hint Resolve preserves_loop_body : preserves.

Lemma preserves_search_loop fuel : forall r s, preserves (search_loop fuel r s).
Proof.
  induction fuel as [|fuel IH]; intros r s; simpl;
    destruct (readingFound s =? 0); preserves_all.
Qed.

Lemma preserves_search_init : preserves search_init.
Proof. unfold search_init. preserves_all. Qed.

#[local] Hint Resolve preserves_search_loop preserves_search_init : preserves.

Lemma preserves_in_range_path fuel r : preserves (in_range_path fuel r).
Proof. unfold in_range_path. preserves_all. Qed.

Lemma preserves_sum_body i acc : preserves (sum_body i acc).
Proof. unfold sum_body. preserves_all. Qed.

#[local] Hint Resolve preserves_sum_body : preserves.

Lemma preserves_sum_loop fuel : forall i acc, preserves (sum_loop fuel i acc).
Proof.
  induction fuel as [|fuel IH]; intros i acc; simpl;
    destruct (cast_uint64 i <=? cast_uint64 (TABLE_ENTRIES - 1));
    preserves_all.
Qed.

Lemma preserves_means_of acc : preserves (means_of acc).
Proof. unfold means_of. preserves_all. Qed.

Lemma preserves_slope_of mn : preserves (slope_of mn).
Proof. unfold slope_of. preserves_all. Qed.

Lemma preserves_intercept_of mn : preserves (intercept_of mn).
Proof. unfold intercept_of. preserves_all. Qed.

#[local] Hint Resolve preserves_sum_loop preserves_means_of preserves_slope_of
  preserves_intercept_of : preserves.

Lemma preserves_least_squares fuel : preserves (least_squares fuel).
Proof. unfold least_squares. preserves_all. Qed.

Lemma preserves_evaluate_line a b r : preserves (evaluate_line a b r).
Proof. unfold evaluate_line. preserves_all. Qed.

#[local] Hint Resolve preserves_least_squares preserves_evaluate_line
  preserves_in_range_path : preserves.

Lemma preserves_out_of_range_path fuel r : preserves (out_of_range_path fuel r).
Proof. unfold out_of_range_path. preserves_all. Qed.

#[local] Hint Resolve preserves_out_of_range_path : preserves.

Lemma preserves_Convert fuel r : preserves (ConvertADCReadingToPressure fuel r).
Proof. unfold ConvertADCReadingToPressure. preserves_all. Qed.

(** ** Arithmetic facts used by the loop proofs *)

Ltac Zify.zify_post_hook ::= Z.to_euclidean_division_equations.

Lemma interpolation_bounds P1 P2 A1 A2 r :
  P1 <= P2 -> A1 <= r <= A2 -> A1 < A2 ->
  0 <= Z.quot (P2 - P1) (A2 - A1) * (r - A1) <= P2 - P1.
Proof.
  intros HP Hr HA.
  rewrite Z.quot_div_nonneg by lia.
  pose proof (Z.mul_div_le (P2 - P1) (A2 - A1) ltac:(lia)) as Hq.
  pose proof (Z.div_pos (P2 - P1) (A2 - A1) ltac:(lia) ltac:(lia)) as Hq0.
  revert Hq Hq0. generalize ((P2 - P1) / (A2 - A1)). intros q Hq Hq0.
  nia.
Qed.

Lemma interpolation_slope_nonneg P1 P2 A1 A2 :
  P1 <= P2 -> A1 < A2 -> 0 <= Z.quot (P2 - P1) (A2 - A1).
Proof. intros HP HA. apply Z.quot_pos; lia. Qed.

(** ** One iteration of the search *)

Lemma search_init_Done m s0 m' :
  search_init m = Done (s0, m') -> s0 = mkSearch 0 90 45 0 0 /\ m' = m.
Proof.
  unfold search_init. intros H.
  apply bind_Done in H as (mp & m1 & H1 & H).
  apply mid_of_Done in H1 as [-> ->]. apply ret_Done in H as [-> ->].
  split; reflexivity.
Qed.

Lemma search_init_value m : search_init m = Done (mkSearch 0 90 45 0 0, m).
Proof. reflexivity. Qed.

(** The body of the loop, run in a state that satisfies the invariant,
    leaves the memory alone and either narrows the window to at most half
    of it (rounded up) and keeps the invariant, or sets [readingFound]
    through one of the two exits. *)
Lemma loop_body_step r m s s' m' :
  searching r m s ->
  loop_body r s m = Done (s', m') ->
  m' = m /\
  ((readingFound s' = readingFound s /\ searching r m s' /\
    0 < window s' < window s /\ window s' <= (window s + 1) / 2) \/
   (readingFound s' = 1 /\
    searchWindowStart s' = searchWindowStart s /\
    searchWindowEnd s' = searchWindowEnd s /\
    (exact_exit r m s' \/
     (midPoint s = searchWindowStart s /\ interpolation_exit r m s')))).
Proof.
  intros (Hse & Hend & Hmid & e1 & e2 & He1 & He2 & Hbr) H.
  rewrite TABLE_SIZE_value in Hend.
  unfold loop_body in H.
  apply bind_Done in H as (a & m1 & Ha & H).
  apply load_adc_Done in Ha as (-> & e & He & ->).
  destruct (Z.eqb_spec r (adc e)) as [Heq|Hne].
  - (* exact match *)
    apply bind_Done in H as (p & m1 & Hp & H).
    apply load_pressure_Done in Hp as (-> & e' & He' & ->).
    apply ret_Done in H as [-> ->].
    split; [reflexivity|right]. simpl. repeat split.
    left. exists e. simpl. rewrite He in He'. injection He' as <-. auto.
  - destruct (Z.eqb_spec (midPoint s) (searchWindowStart s)) as [Hcol|Hncol].
    + (* the window has collapsed: interpolate *)
      apply bind_Done in H as (P1 & m1 & H1 & H).
      apply load_pressure_Done in H1 as (-> & x1 & Hx1 & ->).
      apply bind_Done in H as (P2 & m1 & H1 & H).
      apply load_pressure_Done in H1 as (-> & x2 & Hx2 & ->).
      apply bind_Done in H as (A1 & m1 & H1 & H).
      apply load_adc_Done in H1 as (-> & y1 & Hy1 & ->).
      apply bind_Done in H as (A2 & m1 & H1 & H).
      apply load_adc_Done in H1 as (-> & y2 & Hy2 & ->).
      apply bind_Done in H as (p & m1 & H1 & H).
      apply interpolate_Done in H1 as (-> & ->).
      apply ret_Done in H as [-> ->].
      rewrite He1 in Hx1, Hy1. injection Hx1 as <-. injection Hy1 as <-.
      rewrite He2 in Hx2, Hy2. injection Hx2 as <-. injection Hy2 as <-.
      split; [reflexivity|right]. simpl. repeat split.
      right. split; [assumption|]. split; simpl.
      * rewrite Hmid in Hcol. lia.
      * exists e1, e2. auto.
    + destruct (Z.ltb_spec r (adc e)) as [Hlt|Hge].
      * (* lower half *)
        apply bind_Done in H as (mp & m1 & H1 & H).
        apply mid_of_Done in H1 as (-> & ->).
        apply ret_Done in H as [-> ->].
        split; [reflexivity|left]. unfold searching, brackets, window. simpl.
        rewrite TABLE_SIZE_value, cast_int16_small by lia.
        repeat split; try lia.
        exists e1, e. repeat split; auto; lia.
      * destruct (Z.ltb_spec (adc e) r) as [Hgt|Hle]; [|lia].
        (* upper half *)
        apply bind_Done in H as (mp & m1 & H1 & H).
        apply mid_of_Done in H1 as (-> & ->).
        apply ret_Done in H as [-> ->].
        split; [reflexivity|left]. unfold searching, brackets, window. simpl.
        rewrite TABLE_SIZE_value, cast_int16_small by lia.
        repeat split; try lia.
        exists e, e2. repeat split; auto; lia.
Qed.

(** On a window of two adjacent indices the body always leaves the loop. *)
Lemma two_element_window_exits r m s s' m' :
  searching r m s ->
  searchWindowEnd s = searchWindowStart s + 1 ->
  loop_body r s m = Done (s', m') ->
  readingFound s' = 1.
Proof.
  intros Hs Hw H.
  destruct (loop_body_step _ _ _ _ _ Hs H) as [_ [(_ & _ & Hlt & _)|(Hrf & _)]].
  - unfold window in Hlt. lia.
  - assumption.
Qed.

(** ** States at the head of the loop *)

Lemma enters_search_initial r m :
  enters_search r m -> searching r m (mkSearch 0 90 45 0 0).
Proof.
  intros (lo & hi & Hlo & Hhi & Hr).
  unfold searching, brackets. simpl. rewrite TABLE_SIZE_value.
  repeat split; try lia.
  exists lo, hi. auto.
Qed.

Lemma reached_invariant r m s : reached r m s -> loop_invariant r m s.
Proof.
  induction 1 as [s0 Hent Hinit | s s' Hreach IH Hrf Hstep].
  - apply search_init_Done in Hinit as [-> _].
    left. split; [reflexivity | now apply enters_search_initial].
  - destruct IH as [[_ Hs] | [Hrf1 _]]; [|lia].
    destruct (loop_body_step _ _ _ _ _ Hs Hstep)
      as [_ [(Hrf' & Hs' & _) | (Hrf' & _ & _ & Hexit)]].
    + left. split; [lia | assumption].
    + right. split; [assumption|]. tauto.
Qed.

(** What the loop returns is a state the step relation reaches, with
    [readingFound] set. *)
Lemma search_loop_reached fuel : forall r m s s' m',
  reached r m s ->
  search_loop fuel r s m = Done (s', m') ->
  m' = m /\ reached r m s' /\ readingFound s' <> 0.
Proof.
  induction fuel as [|fuel IH]; intros r m s s' m' Hreach H; simpl in H;
    destruct (Z.eqb_spec (readingFound s) 0) as [Hrf|Hrf]; try discriminate.
  - apply ret_Done in H as [-> ->]. auto.
  - apply bind_Done in H as (s1 & m1 & H1 & H).
    pose proof (preserves_loop_body _ _ _ _ _ H1) as ->.
    eapply IH; [|exact H]. eapply reached_step; eassumption.
  - apply ret_Done in H as [-> ->]. auto.
Qed.

(** ** Loop budgets: more fuel never changes a finished run *)

Lemma search_loop_fuel fuel : forall r s m x fuel',
  search_loop fuel r s m = Done x -> (fuel <= fuel')%nat ->
  search_loop fuel' r s m = Done x.
Proof.
  induction fuel as [|fuel IH]; intros r s m x fuel' H Hle; simpl in H.
  - destruct (readingFound s =? 0) eqn:E; [unfold raise in H; discriminate H|].
    destruct fuel'; simpl; rewrite E; assumption.
  - destruct fuel' as [|fuel']; [lia|]. simpl.
    destruct (readingFound s =? 0); [|assumption].
    unfold bind in H |- *.
    destruct (loop_body r s m) as [[s1 m1]|]; [|discriminate H].
    apply IH; [assumption | lia].
Qed.

Lemma sum_loop_fuel fuel : forall i acc m x fuel',
  sum_loop fuel i acc m = Done x -> (fuel <= fuel')%nat ->
  sum_loop fuel' i acc m = Done x.
Proof.
  induction fuel as [|fuel IH]; intros i acc m x fuel' H Hle;
    cbn [sum_loop] in H.
  - destruct (cast_uint64 i <=? cast_uint64 (TABLE_ENTRIES - 1)) eqn:E;
      [unfold raise in H; discriminate H|].
    destruct fuel'; cbn [sum_loop]; rewrite E; assumption.
  - destruct fuel' as [|fuel']; [lia|]. cbn [sum_loop].
    destruct (cast_uint64 i <=? cast_uint64 (TABLE_ENTRIES - 1)); [|assumption].
    unfold bind in H |- *.
    destruct (sum_body i acc m) as [[acc1 m1]|]; [|discriminate H].
    destruct (add32 i 1 m1) as [[i1 m2]|]; [|discriminate H].
    apply IH; [assumption | lia].
Qed.

(** ** Forward evaluation of the primitives *)

Lemma bind_eq {A B} (c : M A) (k : A -> M B) m a m1 :
  c m = Done (a, m1) -> bind c k m = k a m1.
Proof. intros H. unfold bind. now rewrite H. Qed.

Lemma check32_ok z m :
  - 2 ^ 31 <= z <= 2 ^ 31 - 1 -> check32 z m = Done (z, m).
Proof.
  intros H. unfold check32. apply in_int32_iff in H. now rewrite H.
Qed.

Lemma check64_ok z m :
  - 2 ^ 63 <= z <= 2 ^ 63 - 1 -> check64 z m = Done (z, m).
Proof.
  intros H. unfold check64. apply in_int64_iff in H. now rewrite H.
Qed.

Lemma mid_of_ok s e m :
  0 <= s <= e -> e < 2 ^ 15 ->
  mid_of s e m = Done (s + Z.quot (e - s) 2, m).
Proof.
  intros Hse He. unfold mid_of, sub32, add32, div32.
  rewrite (bind_eq _ _ _ _ _ (check32_ok (e - s) m ltac:(lia))).
  change (2 =? 0) with false. cbv iota.
  rewrite (bind_eq _ _ _ _ _ (check32_ok (Z.quot (e - s) 2) m ltac:(lia))).
  rewrite (bind_eq _ _ _ _ _
             (check32_ok (s + Z.quot (e - s) 2) m ltac:(lia))).
  unfold ret. rewrite cast_int16_small by lia. reflexivity.
Qed.

Lemma interpolate_ok r P1 P2 A1 A2 m :
  0 <= P1 <= P2 -> P2 <= 2 ^ 30 ->
  0 <= A1 -> A1 <= r <= A2 -> A1 < A2 -> A2 < 2 ^ 16 ->
  interpolate r P1 P2 A1 A2 m =
  Done (P1 + Z.quot (P2 - P1) (A2 - A1) * (r - A1), m).
Proof.
  intros HP HP2 HA1 Hr HA HA2.
  pose proof (interpolation_bounds P1 P2 A1 A2 r ltac:(lia) Hr HA) as Ht.
  pose proof (interpolation_bounds P1 P2 A1 A2 A2 ltac:(lia) ltac:(lia) HA)
    as Hfull.
  pose proof (interpolation_slope_nonneg P1 P2 A1 A2 ltac:(lia) HA) as Hq.
  assert (Hqle : Z.quot (P2 - P1) (A2 - A1) <= P2 - P1) by nia.
  unfold interpolate, sub32, add32, mul32, div32.
  rewrite (bind_eq _ _ _ _ _ (check32_ok (P2 - P1) m ltac:(lia))).
  rewrite (bind_eq _ _ _ _ _ (check32_ok (A2 - A1) m ltac:(lia))).
  destruct (Z.eqb_spec (A2 - A1) 0) as [H0|_]; [lia|].
  rewrite (bind_eq _ _ _ _ _
             (check32_ok (Z.quot (P2 - P1) (A2 - A1)) m ltac:(lia))).
  rewrite (bind_eq _ _ _ _ _ (check32_ok (r - A1) m ltac:(lia))).
  rewrite (bind_eq _ _ _ _ _
             (check32_ok (Z.quot (P2 - P1) (A2 - A1) * (r - A1)) m
                ltac:(lia))).
  apply check32_ok. lia.
Qed.

(** ** Ascending tables *)

Lemma ascending_adjacent l : forall i a b,
  ascending l = true ->
  nth_error l i = Some a -> nth_error l (S i) = Some b ->
  adc a < adc b /\ pressure a < pressure b.
Proof.
  induction l as [|x l IH]; intros i a b Hasc Ha Hb.
  - destruct i; discriminate.
  - destruct l as [|y l].
    + destruct i as [|[|i]]; discriminate.
    + cbn [ascending] in Hasc.
      apply andb_true_iff in Hasc as [Hxy Htl].
      apply andb_true_iff in Hxy as [Hadc Hpr].
      destruct i as [|i].
      * cbn in Ha, Hb. injection Ha as <-. injection Hb as <-.
        apply Z.ltb_lt in Hadc, Hpr. auto.
      * apply (IH i); assumption.
Qed.

Lemma nth_error_below {A} (l : list A) i j x :
  nth_error l j = Some x -> (i <= j)%nat -> exists y, nth_error l i = Some y.
Proof.
  intros Hj Hle.
  assert (Hlt : (j < length l)%nat) by (apply nth_error_Some; congruence).
  destruct (nth_error l i) as [y|] eqn:E; [eauto|].
  apply nth_error_None in E. lia.
Qed.

Lemma ascending_lt l : ascending l = true -> forall k i a b,
  nth_error l i = Some a -> nth_error l (i + S k) = Some b ->
  adc a < adc b /\ pressure a < pressure b.
Proof.
  intros Hasc. induction k as [|k IH]; intros i a b Ha Hb.
  - replace (i + 1)%nat with (S i) in Hb by lia.
    eapply ascending_adjacent; eassumption.
  - destruct (nth_error_below l (i + S k) (i + S (S k)) b Hb ltac:(lia))
      as [c Hc].
    destruct (IH i a c Ha Hc) as [H1 H2].
    replace (i + S (S k))%nat with (S (i + S k)) in Hb by lia.
    destruct (ascending_adjacent l _ c b Hasc Hc Hb) as [H3 H4].
    lia.
Qed.

Lemma entry_at_nth m i e :
  entry_at m i = Some e <-> 0 <= i /\ nth_error m (Z.to_nat i) = Some e.
Proof.
  unfold entry_at. destruct (Z.ltb_spec i 0); split.
  - discriminate.
  - intros [H0 _]. lia.
  - auto.
  - tauto.
Qed.

Lemma entry_at_bound m i e :
  entry_at m i = Some e -> 0 <= i < Z.of_nat (length m).
Proof.
  intros H. apply entry_at_nth in H as [H0 H].
  assert (Hlt : (Z.to_nat i < length m)%nat)
    by (apply nth_error_Some; congruence).
  lia.
Qed.

Lemma entry_at_exists m i :
  0 <= i < Z.of_nat (length m) -> exists e, entry_at m i = Some e.
Proof.
  intros H. destruct (nth_error m (Z.to_nat i)) as [e|] eqn:E.
  - exists e. apply entry_at_nth. split; [lia | assumption].
  - apply nth_error_None in E. lia.
Qed.

(** ** The routine on a well-formed table *)

Section WellFormedTable.

Variable m : memory.
Hypothesis m_ok : table_ok m = true.

Lemma m_length : Z.of_nat (length m) = 91.
Proof.
  unfold table_ok in m_ok. rewrite !andb_true_iff in m_ok.
  destruct m_ok as [[H _] _]. apply Z.eqb_eq in H. exact H.
Qed.

Lemma m_ascending : ascending m = true.
Proof.
  unfold table_ok in m_ok. rewrite !andb_true_iff in m_ok. tauto.
Qed.

Lemma m_entry_range i e :
  entry_at m i = Some e ->
  0 <= adc e < 2 ^ 16 /\ 0 <= pressure e <= 2 ^ 30.
Proof.
  intros H. apply entry_at_nth in H as [_ H]. apply nth_error_In in H.
  unfold table_ok in m_ok. rewrite !andb_true_iff in m_ok.
  destruct m_ok as [_ Hall]. rewrite forallb_forall in Hall.
  specialize (Hall e H). unfold entry_in_range in Hall.
  rewrite !andb_true_iff, !Z.leb_le, Z.ltb_lt in Hall. lia.
Qed.

Lemma m_entry_exists i : 0 <= i <= 90 -> exists e, entry_at m i = Some e.
Proof. intros H. apply entry_at_exists. rewrite m_length. lia. Qed.

(** Entries ascend with their index, in both fields. *)
Lemma entry_at_lt i j a b :
  entry_at m i = Some a -> entry_at m j = Some b -> i < j ->
  adc a < adc b /\ pressure a < pressure b.
Proof.
  intros Ha Hb Hij.
  apply entry_at_nth in Ha as [Hi Ha]. apply entry_at_nth in Hb as [Hj Hb].
  replace (Z.to_nat j) with (Z.to_nat i + S (Z.to_nat (j - i - 1)))%nat
    in Hb by lia.
  exact (ascending_lt m m_ascending _ _ a b Ha Hb).
Qed.

Lemma entry_at_le i j a b :
  entry_at m i = Some a -> entry_at m j = Some b -> i <= j ->
  adc a <= adc b /\ pressure a <= pressure b.
Proof.
  intros Ha Hb Hij. destruct (Z.eq_dec i j) as [->|Hne].
  - rewrite Ha in Hb. injection Hb as <-. lia.
  - destruct (entry_at_lt i j a b Ha Hb ltac:(lia)). lia.
Qed.

(** The [adc] field determines the index. *)
Lemma adc_lt_index i j a b :
  entry_at m i = Some a -> entry_at m j = Some b -> adc a < adc b -> i < j.
Proof.
  intros Ha Hb Hlt. destruct (Z.lt_ge_cases i j) as [H|H]; [assumption|].
  destruct (entry_at_le j i b a Hb Ha H). lia.
Qed.

Lemma adc_eq_entry i j a b :
  entry_at m i = Some a -> entry_at m j = Some b -> adc a = adc b ->
  i = j /\ a = b.
Proof.
  intros Ha Hb Heq.
  destruct (Z.lt_trichotomy i j) as [H|[H|H]].
  - destruct (entry_at_lt i j a b Ha Hb H). lia.
  - subst j. rewrite Ha in Hb. injection Hb as <-. auto.
  - destruct (entry_at_lt j i b a Hb Ha H). lia.
Qed.

(** *** The body of the loop does not fault *)

Lemma loop_body_total r s :
  searching r m s -> exists s', loop_body r s m = Done (s', m).
Proof.
  intros (Hse & Hend & Hmid & e1 & e2 & He1 & He2 & Hbr).
  rewrite TABLE_SIZE_value in Hend.
  destruct (m_entry_exists (midPoint s) ltac:(lia)) as [e He].
  destruct (m_entry_range _ _ He1) as [HA1 HP1].
  destruct (m_entry_range _ _ He2) as [HA2 HP2].
  destruct (entry_at_lt _ _ e1 e2 He1 He2 ltac:(lia)) as [_ HP].
  unfold loop_body.
  rewrite (bind_eq _ _ _ _ _ (load_adc_entry _ _ _ He)).
  destruct (r =? adc e).
  { rewrite (bind_eq _ _ _ _ _ (load_pressure_entry _ _ _ He)).
    eexists. reflexivity. }
  destruct (midPoint s =? searchWindowStart s).
  { rewrite (bind_eq _ _ _ _ _ (load_pressure_entry _ _ _ He1)).
    rewrite (bind_eq _ _ _ _ _ (load_pressure_entry _ _ _ He2)).
    rewrite (bind_eq _ _ _ _ _ (load_adc_entry _ _ _ He1)).
    rewrite (bind_eq _ _ _ _ _ (load_adc_entry _ _ _ He2)).
    rewrite (bind_eq _ _ _ _ _
               (interpolate_ok r (pressure e1) (pressure e2) (adc e1)
                  (adc e2) m ltac:(lia) ltac:(lia) ltac:(lia) ltac:(lia)
                  ltac:(lia) ltac:(lia))).
    eexists. reflexivity. }
  destruct (r <? adc e).
  { rewrite (bind_eq _ _ _ _ _
               (mid_of_ok (searchWindowStart s) (midPoint s) m
                  ltac:(lia) ltac:(lia))).
    eexists. reflexivity. }
  destruct (adc e <? r).
  { rewrite (bind_eq _ _ _ _ _
               (mid_of_ok (midPoint s) (searchWindowEnd s) m
                  ltac:(lia) ltac:(lia))).
    eexists. reflexivity. }
  eexists. reflexivity.
Qed.

(** *** The loop finishes within one iteration more than the binary
    logarithm of the window *)

Lemma search_loop_total k : forall r s,
  searching r m s -> readingFound s = 0 ->
  window s <= 2 ^ Z.of_nat k ->
  exists s', search_loop (S k) r s m = Done (s', m).
Proof.
  induction k as [|k IH]; intros r s Hs Hrf Hw.
  - destruct (loop_body_total r s Hs) as [s1 H1].
    cbn [search_loop]. rewrite Hrf. cbn.
    rewrite (bind_eq _ _ _ _ _ H1).
    destruct (loop_body_step _ _ _ _ _ Hs H1)
      as [_ [(_ & _ & Hlt & _)|(Hrf1 & _)]].
    + change (2 ^ Z.of_nat 0) with 1 in Hw. lia.
    + rewrite Hrf1. cbn. eexists. reflexivity.
  - destruct (loop_body_total r s Hs) as [s1 H1].
    cbn [search_loop]. rewrite Hrf. cbn [Z.eqb].
    rewrite (bind_eq _ _ _ _ _ H1).
    destruct (loop_body_step _ _ _ _ _ Hs H1)
      as [_ [(Hrf1 & Hs1 & Hlt & Hhalf)|(Hrf1 & _)]].
    + apply IH; [assumption | lia |].
      rewrite Nat2Z.inj_succ, Z.pow_succ_r in Hw by lia. lia.
    + cbn [search_loop]. rewrite Hrf1. cbn. eexists. reflexivity.
Qed.

(** The search from the initial window of 90 takes at most 8
    iterations and leaves through one of the two exits. *)
Lemma search_from_init r :
  enters_search r m ->
  exists s',
    search_loop 8 r (mkSearch 0 90 45 0 0) m = Done (s', m) /\
    readingFound s' = 1 /\
    (exact_exit r m s' \/ interpolation_exit r m s').
Proof.
  intros Hent.
  pose proof (enters_search_initial r m Hent) as Hs.
  destruct (search_loop_total 7 r _ Hs eq_refl) as [s' H].
  { unfold window. simpl. lia. }
  exists s'. split; [assumption|].
  assert (Hreach : reached r m (mkSearch 0 90 45 0 0))
    by (apply reached_init; [assumption | reflexivity]).
  destruct (search_loop_reached _ _ _ _ _ _ Hreach H) as (_ & Hr' & Hrf).
  destruct (reached_invariant _ _ _ Hr') as [[H0 _]|[H1 Hexit]]; [lia|].
  auto.
Qed.

End WellFormedTable.

Section ConvertOnTable.

Variable m : memory.
Hypothesis m_ok : table_ok m = true.

Variables lo hi : PressureTableEntry.
Hypothesis first_entry : entry_at m 0 = Some lo.
Hypothesis last_entry : entry_at m TABLE_SIZE = Some hi.

(** *** Which path is taken *)

Lemma Convert_in_range fuel r :
  adc lo <= r <= adc hi ->
  ConvertADCReadingToPressure fuel r m = in_range_path fuel r m.
Proof.
  intros Hr. unfold ConvertADCReadingToPressure.
  rewrite (bind_eq _ _ _ _ _ (load_adc_entry _ _ _ first_entry)).
  destruct (Z.leb_spec (adc lo) r); [|lia].
  rewrite (bind_eq _ _ _ _ _ (load_adc_entry _ _ _ last_entry)).
  destruct (Z.leb_spec r (adc hi)); [reflexivity|lia].
Qed.

Lemma Convert_out_of_range fuel r :
  r < adc lo \/ adc hi < r ->
  ConvertADCReadingToPressure fuel r m = out_of_range_path fuel r m.
Proof.
  intros Hr. unfold ConvertADCReadingToPressure.
  rewrite (bind_eq _ _ _ _ _ (load_adc_entry _ _ _ first_entry)).
  destruct (Z.leb_spec (adc lo) r); [|reflexivity].
  rewrite (bind_eq _ _ _ _ _ (load_adc_entry _ _ _ last_entry)).
  destruct (Z.leb_spec r (adc hi)); [lia|reflexivity].
Qed.

(** *** The in-range path *)

Lemma in_range_first fuel :
  in_range_path fuel (adc lo) m = Done (pressure lo, m).
Proof.
  unfold in_range_path.
  rewrite (bind_eq _ _ _ _ _ (search_init_value m)).
  rewrite (bind_eq _ _ _ _ _ (load_adc_entry _ _ _ first_entry)).
  rewrite Z.eqb_refl. now apply load_pressure_entry.
Qed.

Lemma in_range_last fuel :
  in_range_path fuel (adc hi) m = Done (pressure hi, m).
Proof.
  unfold in_range_path.
  rewrite (bind_eq _ _ _ _ _ (search_init_value m)).
  rewrite (bind_eq _ _ _ _ _ (load_adc_entry _ _ _ first_entry)).
  destruct (Z.eqb_spec (adc hi) (adc lo)) as [Heq|_].
  - destruct (adc_eq_entry m m_ok _ _ _ _ last_entry first_entry Heq)
      as [H _].
    rewrite TABLE_SIZE_value in H. discriminate H.
  - rewrite (bind_eq _ _ _ _ _ (load_adc_entry _ _ _ last_entry)).
    rewrite Z.eqb_refl. now apply load_pressure_entry.
Qed.

Lemma in_range_search fuel r :
  adc lo < r < adc hi ->
  in_range_path fuel r m =
  bind (search_loop fuel r (mkSearch 0 90 45 0 0))
       (fun s => ret (found_pressure s)) m.
Proof.
  intros Hr. unfold in_range_path.
  rewrite (bind_eq _ _ _ _ _ (search_init_value m)).
  rewrite (bind_eq _ _ _ _ _ (load_adc_entry _ _ _ first_entry)).
  destruct (Z.eqb_spec r (adc lo)); [lia|].
  rewrite (bind_eq _ _ _ _ _ (load_adc_entry _ _ _ last_entry)).
  destruct (Z.eqb_spec r (adc hi)); [lia|]. reflexivity.
Qed.

Lemma enters_search_intro r : adc lo < r < adc hi -> enters_search r m.
Proof. intros Hr. exists lo, hi. auto. Qed.

(** *** Every in-range reading is converted, and to the value that
    belongs to its place in the table *)

Lemma in_range_located fuel r :
  (8 <= fuel)%nat -> adc lo <= r <= adc hi ->
  exists v, in_range_path fuel r m = Done (v, m) /\ located m r v.
Proof.
  intros Hfuel Hr.
  destruct (Z.eq_dec r (adc lo)) as [->|Hlo].
  { (* the first entry *)
    exists (pressure lo). split; [apply in_range_first|].
    destruct (m_entry_exists m m_ok 1 ltac:(lia)) as [e2 He2].
    destruct (entry_at_lt m m_ok 0 1 lo e2 first_entry He2 ltac:(lia)).
    left. exists 0, lo, e2. repeat split; auto; try lia.
    unfold interpolation_formula. lia. }
  destruct (Z.eq_dec r (adc hi)) as [->|Hhi].
  { (* the last entry *)
    exists (pressure hi). split; [apply in_range_last|].
    right. exists hi. auto. }
  assert (Hin : adc lo < r < adc hi) by lia.
  destruct (search_from_init m m_ok r (enters_search_intro r Hin))
    as (s' & Hloop & Hrf & Hexit).
  apply (search_loop_fuel _ _ _ _ _ fuel) in Hloop; [|assumption].
  exists (found_pressure s'). split.
  { rewrite (in_range_search fuel r Hin).
    rewrite (bind_eq _ _ _ _ _ Hloop). reflexivity. }
  destruct Hexit
  as [(e & He & Hadc & Hp) | (Hw & e1 & e2 & He1 & He2 & Hb & Hp)].
  - (* exact match at an inner index *)
    pose proof (entry_at_bound _ _ _ He) as Hk. rewrite (m_length m m_ok) in Hk.
    assert (Hk90 : midPoint s' <> 90).
    { intros Heq. rewrite Heq, <- TABLE_SIZE_value, last_entry in He.
      injection He as <-. lia. }
    destruct (m_entry_exists m m_ok (midPoint s' + 1) ltac:(lia)) as [e2 He2].
    destruct (entry_at_lt m m_ok _ _ e e2 He He2 ltac:(lia)).
    left. exists (midPoint s'), e, e2. repeat split; auto; try lia.
    rewrite Hp. unfold interpolation_formula. rewrite <- Hadc. lia.
  - (* interpolation between adjacent entries *)
    left. exists (searchWindowStart s'), e1, e2.
    rewrite <- Hw. repeat split; auto; lia.
Qed.

(** *** The located value at table entries and between them *)

Lemma located_at_entry i e v :
  entry_at m i = Some e -> located m (adc e) v -> v = pressure e.
Proof.
  intros He [(j & e1 & e2 & He1 & He2 & Hr & Hv) | (e' & He' & Hr & Hv)].
  - pose proof (adc_lt_index m m_ok _ _ _ _ He He2 ltac:(lia)) as H1.
    destruct (Z.eq_dec i j) as [->|Hne].
    + rewrite He in He1. injection He1 as <-.
      rewrite Hv. unfold interpolation_formula. lia.
    + assert (Hlt : i < j) by lia.
      destruct (entry_at_lt m m_ok _ _ _ _ He He1 Hlt). lia.
  - destruct (adc_eq_entry m m_ok _ _ _ _ He He' Hr) as [_ <-]. assumption.
Qed.

Lemma located_between i e1 e2 r v :
  entry_at m i = Some e1 -> entry_at m (i + 1) = Some e2 ->
  adc e1 < r < adc e2 -> located m r v ->
  v = interpolation_formula e1 e2 r.
Proof.
  intros He1 He2 Hr
    [(j & x1 & x2 & Hx1 & Hx2 & Hj & Hv) | (e' & He' & Hr' & Hv)].
  - assert (Hij : i < j + 1)
      by (apply (adc_lt_index m m_ok _ _ _ _ He1 Hx2); lia).
    assert (Hji : j < i + 1)
      by (apply (adc_lt_index m m_ok _ _ _ _ Hx1 He2); lia).
    assert (j = i) by lia. subst j.
    rewrite He1 in Hx1. injection Hx1 as <-.
    rewrite He2 in Hx2. injection Hx2 as <-. assumption.
  - pose proof (entry_at_bound _ _ _ He2) as Hb.
    rewrite (m_length m m_ok) in Hb. rewrite TABLE_SIZE_value in He'.
    destruct (entry_at_le m m_ok (i + 1) 90 e2 e' He2 He' ltac:(lia)). lia.
Qed.

(** *** The located value does not decrease with the reading *)

Lemma located_value_bounds i e1 e2 r :
  entry_at m i = Some e1 -> entry_at m (i + 1) = Some e2 ->
  adc e1 <= r < adc e2 ->
  pressure e1 <= interpolation_formula e1 e2 r <= pressure e2.
Proof.
  intros He1 He2 Hr.
  destruct (entry_at_lt m m_ok _ _ _ _ He1 He2 ltac:(lia)) as [HA HP].
  pose proof (interpolation_bounds (pressure e1) (pressure e2) (adc e1)
                (adc e2) r ltac:(lia) ltac:(lia) HA).
  unfold interpolation_formula. lia.
Qed.

Lemma located_monotone a b va vb :
  located m a va -> located m b vb -> a <= b -> va <= vb.
Proof.
  intros [(i & x1 & x2 & Hx1 & Hx2 & Ha & Hva) | (ea & Hea & Ha & Hva)]
         [(j & y1 & y2 & Hy1 & Hy2 & Hb & Hvb) | (eb & Heb & Hb & Hvb)] Hab.
  - pose proof (located_value_bounds _ _ _ _ Hx1 Hx2 Ha) as Bx.
    pose proof (located_value_bounds _ _ _ _ Hy1 Hy2 Hb) as By.
    destruct (Z.lt_trichotomy i j) as [Hlt|[Heq|Hgt]].
    + destruct (entry_at_le m m_ok (i + 1) j x2 y1 Hx2 Hy1 ltac:(lia)). lia.
    + subst j. rewrite Hx1 in Hy1. injection Hy1 as <-.
      rewrite Hx2 in Hy2. injection Hy2 as <-.
      destruct (entry_at_lt m m_ok _ _ _ _ Hx1 Hx2 ltac:(lia)) as [HA HP].
      pose proof (interpolation_slope_nonneg (pressure x1) (pressure x2)
                    (adc x1) (adc x2) ltac:(lia) HA) as Hq.
      subst va vb. unfold interpolation_formula.
      apply Z.add_le_mono_l. apply Z.mul_le_mono_nonneg_l; lia.
    + destruct (entry_at_le m m_ok (j + 1) i y2 x1 Hy2 Hx1 ltac:(lia)). lia.
  - pose proof (located_value_bounds _ _ _ _ Hx1 Hx2 Ha) as Bx.
    pose proof (entry_at_bound _ _ _ Hx2) as Hi.
    rewrite (m_length m m_ok) in Hi. rewrite TABLE_SIZE_value in Heb.
    destruct (entry_at_le m m_ok (i + 1) 90 x2 eb Hx2 Heb ltac:(lia)). lia.
  - pose proof (entry_at_bound _ _ _ Hy2) as Hj.
    rewrite (m_length m m_ok) in Hj. rewrite TABLE_SIZE_value in Hea.
    destruct (entry_at_le m m_ok (j + 1) 90 y2 ea Hy2 Hea ltac:(lia)). lia.
  - rewrite Hea in Heb. injection Heb as <-. lia.
Qed.

End ConvertOnTable.

(** ** The compiled-in table *)

Lemma pressureTable_ok : table_ok pressureTable = true.
Proof. vm_compute. reflexivity. Qed.

Lemma pressureTable_first :
  entry_at pressureTable 0 = Some (mkEntry 10000 1696).
Proof. reflexivity. Qed.

Lemma pressureTable_last :
  entry_at pressureTable TABLE_SIZE = Some (mkEntry 100000 14073).
Proof. reflexivity. Qed.

Lemma nth_error_entry_at (l : memory) i e :
  nth_error l i = Some e -> entry_at l (Z.of_nat i) = Some e.
Proof.
  intros H. apply entry_at_nth. split; [lia|]. now rewrite Nat2Z.id.
Qed.

Lemma reference_in_range fuel r :
  1696 <= r <= 14073 ->
  ConvertADCReadingToPressure fuel r pressureTable =
  in_range_path fuel r pressureTable.
Proof.
  exact (Convert_in_range pressureTable _ _ pressureTable_first
           pressureTable_last fuel r).
Qed.

Lemma reference_out_of_range fuel r :
  r < 1696 \/ 14073 < r ->
  ConvertADCReadingToPressure fuel r pressureTable =
  out_of_range_path fuel r pressureTable.
Proof.
  exact (Convert_out_of_range pressureTable _ _ pressureTable_first
           pressureTable_last fuel r).
Qed.

Lemma reference_located fuel r :
  (8 <= fuel)%nat -> 1696 <= r <= 14073 ->
  exists v,
    ConvertADCReadingToPressure fuel r pressureTable = Done (v, pressureTable)
    /\ located pressureTable r v.
Proof.
  intros Hfuel Hr. rewrite (reference_in_range fuel r Hr).
  exact (in_range_located pressureTable pressureTable_ok _ _
           pressureTable_first pressureTable_last fuel r Hfuel Hr).
Qed.

Lemma reference_entry_in_range i e :
  entry_at pressureTable i = Some e -> 1696 <= adc e <= 14073.
Proof.
  intros He. pose proof (entry_at_bound _ _ _ He) as Hi.
  change (Z.of_nat (length pressureTable)) with 91 in Hi.
  destruct (entry_at_le pressureTable pressureTable_ok 0 i _ e
              pressureTable_first He ltac:(lia)) as [H1 _].
  destruct (entry_at_le pressureTable pressureTable_ok i 90 e _
              He pressureTable_last ltac:(lia)) as [H2 _].
  cbn [adc] in H1, H2. lia.
Qed.

(** *** The fit over the compiled-in table *)

Lemma reference_sums :
  sum_loop 91 0 (mkSums 0 0 0 0) pressureTable =
  Done (mkSums 476407470 701799 50050 6729358557, pressureTable).
Proof. vm_compute. reflexivity. Qed.

Lemma reference_means :
  means_of (mkSums 476407470 701799 50050 6729358557) pressureTable =
  Done (mkSums 5235245 7711 549 73948994, pressureTable).
Proof. vm_compute. reflexivity. Qed.

Lemma reference_slope :
  slope_of (mkSums 5235245 7711 549 73948994) pressureTable =
  Done (6, pressureTable).
Proof. vm_compute. reflexivity. Qed.

Lemma reference_intercept :
  intercept_of (mkSums 5235245 7711 549 73948994) pressureTable =
  Done (1580, pressureTable).
Proof. vm_compute. reflexivity. Qed.

Lemma reference_fit fuel :
  (91 <= fuel)%nat ->
  least_squares fuel pressureTable = Done ((6, 1580), pressureTable).
Proof.
  intros Hfuel. unfold least_squares.
  rewrite (bind_eq _ _ _ _ _
             (sum_loop_fuel _ _ _ _ _ fuel reference_sums Hfuel)).
  rewrite (bind_eq _ _ _ _ _ reference_means).
  rewrite (bind_eq _ _ _ _ _ reference_slope).
  rewrite (bind_eq _ _ _ _ _ reference_intercept).
  reflexivity.
Qed.

Lemma evaluate_line_ok slope intercept r m :
  - 2 ^ 20 <= slope <= 2 ^ 20 -> - 2 ^ 60 <= intercept <= 2 ^ 60 ->
  in_int32 r = true ->
  evaluate_line slope intercept r m =
  Done (cast_int32 (slope * r + intercept), m).
Proof.
  intros Hs Hi Hr. apply in_int32_iff in Hr.
  assert (Hprod : - 2 ^ 51 <= slope * r <= 2 ^ 51) by nia.
  unfold evaluate_line, mul64, add64.
  rewrite (bind_eq _ _ _ _ _ (check64_ok (slope * r) m ltac:(lia))).
  rewrite (bind_eq _ _ _ _ _
             (check64_ok (slope * r + intercept) m ltac:(lia))).
  reflexivity.
Qed.

Lemma reference_extrapolation fuel r :
  (91 <= fuel)%nat -> in_int32 r = true -> r < 1696 \/ 14073 < r ->
  ConvertADCReadingToPressure fuel r pressureTable =
  Done (cast_int32 (6 * r + 1580), pressureTable).
Proof.
  intros Hfuel Hr Hout. rewrite (reference_out_of_range fuel r Hout).
  unfold out_of_range_path.
  rewrite (bind_eq _ _ _ _ _ (reference_fit fuel Hfuel)).
  cbn [fst snd]. apply evaluate_line_ok; [lia | lia | assumption].
Qed.

(** * The claims *)

(** C1. For every entry [(P_i, ADC_i)] of the reference calibration table
    the routine returns exactly [P_i] for the reading [ADC_i]; in
    particular it returns the first entry's pressure for the first entry's
    reading and the last entry's pressure for the last entry's reading. *)
Theorem C1_exact_match (fuel : nat) (i : nat) (e : PressureTableEntry) :
  (8 <= fuel)%nat ->
  nth_error pressureTable i = Some e ->
  ConvertADCReadingToPressure fuel (adc e) pressureTable
    = Done (pressure e, pressureTable) /\
  ConvertADCReadingToPressure fuel 1696 pressureTable
    = Done (10000, pressureTable) /\
  ConvertADCReadingToPressure fuel 14073 pressureTable
    = Done (100000, pressureTable).
Proof.
  intros Hfuel He.
  assert (Hentry : forall j x, entry_at pressureTable j = Some x ->
            ConvertADCReadingToPressure fuel (adc x) pressureTable
            = Done (pressure x, pressureTable)).
  { intros j x Hx.
    destruct (reference_located fuel (adc x) Hfuel
                (reference_entry_in_range j x Hx)) as (v & Hv & Hloc).
    rewrite Hv.
    now rewrite (located_at_entry pressureTable pressureTable_ok j x v
                   Hx Hloc). }
  split; [|split].
  - exact (Hentry _ e (nth_error_entry_at _ _ _ He)).
  - exact (Hentry 0 _ pressureTable_first).
  - exact (Hentry TABLE_SIZE _ pressureTable_last).
Qed.

Lemma C1_exact_match_witness :
  ConvertADCReadingToPressure 8 7177 pressureTable
    = Done (55000, pressureTable) /\
  ConvertADCReadingToPressure 8 1696 pressureTable
    = Done (10000, pressureTable) /\
  ConvertADCReadingToPressure 8 14073 pressureTable
    = Done (100000, pressureTable).
Proof.
  apply (C1_exact_match 8 45 (mkEntry 55000 7177)); [lia | reflexivity].
Defined.

(** C2. For every reading strictly between two adjacent table entries
    [(P1, ADC1)] and [(P2, ADC2)] the routine returns
    [P1 + ((P2 - P1) / (ADC2 - ADC1)) * (adcReading - ADC1)], the division
    truncating and taken before the multiplication by the offset. *)
Theorem C2_interpolation (fuel : nat) (i : nat) (e1 e2 : PressureTableEntry)
  (adcReading : Z) :
  (8 <= fuel)%nat ->
  nth_error pressureTable i = Some e1 ->
  nth_error pressureTable (S i) = Some e2 ->
  adc e1 < adcReading < adc e2 ->
  ConvertADCReadingToPressure fuel adcReading pressureTable
    = Done (pressure e1 +
            Z.quot (pressure e2 - pressure e1) (adc e2 - adc e1) *
            (adcReading - adc e1),
            pressureTable).
Proof.
  intros Hfuel H1 H2 Hr.
  apply nth_error_entry_at in H1, H2.
  rewrite Nat2Z.inj_succ in H2. unfold Z.succ in H2.
  pose proof (reference_entry_in_range _ _ H1).
  pose proof (reference_entry_in_range _ _ H2).
  destruct (reference_located fuel adcReading Hfuel ltac:(lia))
    as (v & Hv & Hloc).
  rewrite Hv.
  rewrite (located_between pressureTable pressureTable_ok _ e1 e2 adcReading v
             H1 H2 Hr Hloc).
  reflexivity.
Qed.

Lemma C2_interpolation_witness :
  ConvertADCReadingToPressure 8 1800 pressureTable
    = Done (10000 + Z.quot (11000 - 10000) (1909 - 1696) * (1800 - 1696),
            pressureTable).
Proof.
  apply (C2_interpolation 8 0 (mkEntry 10000 1696) (mkEntry 11000 1909) 1800);
    [lia | reflexivity | reflexivity | simpl; lia].
Defined.

(** C3. The claim has every accumulator divided by the number of table
    entries [N] to give the per-point means from which slope and intercept
    are taken, as the header comment of the routine does ("N is the total
    number of data points").  The code departs from it: the four sums are
    accumulated as claimed, over all 91 entries, but [sum / TABLE_SIZE]
    expands to [sum / 91 - 1], so each quantity used as a mean is one less
    than the accumulator divided by the number of entries, and is not the
    accumulator divided by 90 either.  For the out-of-range reading 1000
    the routine therefore returns 7580, where the claimed line gives 8056
    with [N = 91] and 8144 with [N = 90]. *)
Theorem C3_means_divergence :
  1000 < 1696 /\
  TABLE_ENTRIES = 91 /\
  sum_loop 91 0 (mkSums 0 0 0 0) pressureTable
    = Done (spec_sums pressureTable, pressureTable) /\
  (exists mn,
      means_of (spec_sums pressureTable) pressureTable
        = Done (mn, pressureTable) /\
      let claimed := spec_means TABLE_ENTRIES (spec_sums pressureTable) in
      sumOfADC_iTimesP_i mn = sumOfADC_iTimesP_i claimed - 1 /\
      sumOfADC_i mn = sumOfADC_i claimed - 1 /\
      sumOfP_i mn = sumOfP_i claimed - 1 /\
      sumOfADC_iSquared mn = sumOfADC_iSquared claimed - 1 /\
      mn <> claimed /\
      mn <> spec_means 90 (spec_sums pressureTable) /\
      slope_of mn pressureTable = Done (6, pressureTable) /\
      intercept_of mn pressureTable = Done (1580, pressureTable)) /\
  ConvertADCReadingToPressure 91 1000 pressureTable
    = Done (7580, pressureTable) /\
  spec_extrapolate TABLE_ENTRIES pressureTable 1000 = 8056 /\
  spec_extrapolate 90 pressureTable 1000 = 8144 /\
  convert 1000 <> Done (spec_extrapolate TABLE_ENTRIES pressureTable 1000) /\
  convert 1000 <> Done (spec_extrapolate 90 pressureTable 1000).
Proof.
  split; [lia|]. split; [reflexivity|].
  split; [vm_compute; reflexivity|].
  split.
  { exists (mkSums 5235245 7711 549 73948994).
    split; [vm_compute; reflexivity|].
    cbv zeta.
    repeat (split; [vm_compute; first [reflexivity | discriminate]|]).
    vm_compute; reflexivity. }
  split; [vm_compute; reflexivity|].
  split; [vm_compute; reflexivity|].
  split; [vm_compute; reflexivity|].
  split; vm_compute; discriminate.
Qed.

(** C4. For in-range readings [a <= b] the pressure returned for [a] is
    at most the pressure returned for [b]. *)
Theorem C4_monotone (fuel : nat) (a b : Z) :
  (8 <= fuel)%nat ->
  1696 <= a -> a <= b -> b <= 14073 ->
  exists va vb,
    ConvertADCReadingToPressure fuel a pressureTable = Done (va, pressureTable)
    /\
    ConvertADCReadingToPressure fuel b pressureTable = Done (vb, pressureTable)
    /\ va <= vb.
Proof.
  intros Hfuel Ha Hab Hb.
  destruct (reference_located fuel a Hfuel ltac:(lia)) as (va & Hva & La).
  destruct (reference_located fuel b Hfuel ltac:(lia)) as (vb & Hvb & Lb).
  exists va, vb. repeat split; try assumption.
  exact (located_monotone pressureTable pressureTable_ok a b va vb La Lb Hab).
Qed.

Lemma C4_monotone_witness :
  exists va vb,
    ConvertADCReadingToPressure 8 1800 pressureTable = Done (va, pressureTable)
    /\
    ConvertADCReadingToPressure 8 1950 pressureTable = Done (vb, pressureTable)
    /\ va <= vb.
Proof.
  apply (C4_monotone 8 1800 1950); lia.
Defined.

Lemma located_in_int32 r v : located pressureTable r v -> in_int32 v = true.
Proof.
  intros [(i & e1 & e2 & H1 & H2 & Hr & ->) | (e & He & _ & ->)];
    apply in_int32_iff.
  - pose proof (located_value_bounds pressureTable pressureTable_ok
                  i e1 e2 r H1 H2 Hr).
    destruct (m_entry_range _ pressureTable_ok _ _ H1) as [_ B1].
    destruct (m_entry_range _ pressureTable_ok _ _ H2) as [_ B2]. lia.
  - destruct (m_entry_range _ pressureTable_ok _ _ He) as [_ B]. lia.
Qed.

(** C5. For every [int] reading the routine, applied to the reference
    table, finishes with a pressure that fits an [int], through exactly
    one of the two paths: no array access leaves the table, no division
    has a zero divisor and no signed operation overflows, since each of
    these is a fault of the model and the run ends in [Done]. *)
Theorem C5_total (fuel : nat) (adcReading : Z) :
  (91 <= fuel)%nat ->
  in_int32 adcReading = true ->
  exists v,
    ConvertADCReadingToPressure fuel adcReading pressureTable
      = Done (v, pressureTable) /\
    in_int32 v = true /\
    ((1696 <= adcReading <= 14073 /\
      ConvertADCReadingToPressure fuel adcReading pressureTable
        = in_range_path fuel adcReading pressureTable) \/
     ((adcReading < 1696 \/ 14073 < adcReading) /\
      ConvertADCReadingToPressure fuel adcReading pressureTable
        = out_of_range_path fuel adcReading pressureTable)).
Proof.
  intros Hfuel Hr.
  destruct (Z_le_dec 1696 adcReading) as [Hlo|Hlo];
    [destruct (Z_le_dec adcReading 14073) as [Hhi|Hhi]|].
  - destruct (reference_located fuel adcReading ltac:(lia) ltac:(lia))
      as (v & Hv & Hloc).
    exists v. split; [assumption|]. split; [exact (located_in_int32 _ _ Hloc)|].
    left. split; [lia|]. apply reference_in_range. lia.
  - exists (cast_int32 (6 * adcReading + 1580)).
    split; [apply reference_extrapolation; auto; lia|].
    split; [apply cast_int32_range|].
    right. split; [lia|]. apply reference_out_of_range. lia.
  - exists (cast_int32 (6 * adcReading + 1580)).
    split; [apply reference_extrapolation; auto; lia|].
    split; [apply cast_int32_range|].
    right. split; [lia|]. apply reference_out_of_range. lia.
Qed.

Lemma C5_total_witness :
  exists v,
    ConvertADCReadingToPressure 91 (-5) pressureTable
      = Done (v, pressureTable) /\
    in_int32 v = true /\
    ((1696 <= -5 <= 14073 /\
      ConvertADCReadingToPressure 91 (-5) pressureTable
        = in_range_path 91 (-5) pressureTable) \/
     ((-5 < 1696 \/ 14073 < -5) /\
      ConvertADCReadingToPressure 91 (-5) pressureTable
        = out_of_range_path 91 (-5) pressureTable)).
Proof.
  apply (C5_total 91 (-5)); [lia | reflexivity].
Defined.

(** C6. With the reference table, the readings 1000 and 20000 are both
    converted by the extrapolation path; the first yields a pressure
    strictly below 10000 and the second one strictly above 100000. *)
Theorem C6_scenarios (fuel : nat) :
  (91 <= fuel)%nat ->
  exists v1 v2,
    ConvertADCReadingToPressure fuel 1000 pressureTable
      = out_of_range_path fuel 1000 pressureTable /\
    ConvertADCReadingToPressure fuel 1000 pressureTable
      = Done (v1, pressureTable) /\
    v1 < 10000 /\
    ConvertADCReadingToPressure fuel 20000 pressureTable
      = out_of_range_path fuel 20000 pressureTable /\
    ConvertADCReadingToPressure fuel 20000 pressureTable
      = Done (v2, pressureTable) /\
    100000 < v2.
Proof.
  intros Hfuel. exists 7580, 121580.
  split; [apply reference_out_of_range; lia|].
  split; [exact (reference_extrapolation fuel 1000 Hfuel eq_refl
                   ltac:(lia))|].
  split; [lia|].
  split; [apply reference_out_of_range; lia|].
  split; [exact (reference_extrapolation fuel 20000 Hfuel eq_refl
                   ltac:(lia))|].
  lia.
Qed.

Lemma C6_scenarios_witness :
  exists v1 v2,
    ConvertADCReadingToPressure 91 1000 pressureTable
      = out_of_range_path 91 1000 pressureTable /\
    ConvertADCReadingToPressure 91 1000 pressureTable
      = Done (v1, pressureTable) /\
    v1 < 10000 /\
    ConvertADCReadingToPressure 91 20000 pressureTable
      = out_of_range_path 91 20000 pressureTable /\
    ConvertADCReadingToPressure 91 20000 pressureTable
      = Done (v2, pressureTable) /\
    100000 < v2.
Proof.
  apply (C6_scenarios 91). lia.
Defined.

(** C7, as stated, fails.  The binary logarithm of the number of entries,
    rounded up, is 7, and for the in-range reading 14000 the loop is still
    searching after 7 executions of its body: it needs an eighth. *)
Lemma C7_counterexample :
  1696 <= 14000 <= 14073 /\
  Z.log2_up TABLE_ENTRIES = 7 /\
  search_loop (Z.to_nat (Z.log2_up TABLE_ENTRIES)) 14000
    (mkSearch 0 90 45 0 0) pressureTable = Fault OutOfFuel /\
  search_loop 8 14000 (mkSearch 0 90 45 0 0) pressureTable
    = Done (mkSearch 89 90 89 1 99552, pressureTable).
Proof.
  split; [lia|]. split; [reflexivity|]. split; vm_compute; reflexivity.
Qed.

(** C7, amended.  For every in-range reading the search terminates: the
    in-range path finishes within 8 executions of the loop body (one more
    than the binary logarithm, rounded up, of the initial window of 90);
    on every iteration that does not leave the loop the window strictly
    shrinks and stays non-empty; and on a window of two adjacent indices
    the body leaves the loop. *)
Theorem C7_termination (adcReading : Z) :
  1696 <= adcReading <= 14073 ->
  (exists v, in_range_path 8 adcReading pressureTable
             = Done (v, pressureTable)) /\
  Z.log2_up (window (mkSearch 0 90 45 0 0)) + 1 = 8 /\
  (forall s s',
      reached adcReading pressureTable s -> readingFound s = 0 ->
      loop_body adcReading s pressureTable = Done (s', pressureTable) ->
      readingFound s' = 0 ->
      0 < window s' < window s) /\
  (forall s s',
      reached adcReading pressureTable s -> readingFound s = 0 ->
      searchWindowEnd s = searchWindowStart s + 1 ->
      loop_body adcReading s pressureTable = Done (s', pressureTable) ->
      readingFound s' = 1).
Proof.
  intros Hr. split; [|split; [reflexivity|split]].
  - destruct (in_range_located pressureTable pressureTable_ok _ _
                pressureTable_first pressureTable_last 8 adcReading
                ltac:(lia) Hr) as (v & Hv & _).
    exists v. exact Hv.
  - intros s s' Hreach Hrf Hstep Hrf'.
    destruct (reached_invariant _ _ _ Hreach) as [[_ Hs]|[H1 _]]; [|lia].
    destruct (loop_body_step _ _ _ _ _ Hs Hstep)
      as [_ [(_ & _ & Hlt & _)|(H1 & _)]]; [assumption | lia].
  - intros s s' Hreach Hrf Hw Hstep.
    destruct (reached_invariant _ _ _ Hreach) as [[_ Hs]|[H1 _]]; [|lia].
    exact (two_element_window_exits _ _ _ _ _ Hs Hw Hstep).
Qed.

Lemma C7_termination_witness :
  (exists v, in_range_path 8 14000 pressureTable
             = Done (v, pressureTable)) /\
  Z.log2_up (window (mkSearch 0 90 45 0 0)) + 1 = 8 /\
  (forall s s',
      reached 14000 pressureTable s -> readingFound s = 0 ->
      loop_body 14000 s pressureTable = Done (s', pressureTable) ->
      readingFound s' = 0 ->
      0 < window s' < window s) /\
  (forall s s',
      reached 14000 pressureTable s -> readingFound s = 0 ->
      searchWindowEnd s = searchWindowStart s + 1 ->
      loop_body 14000 s pressureTable = Done (s', pressureTable) ->
      readingFound s' = 1).
Proof.
  apply (C7_termination 14000). lia.
Defined.

(** C8. The routine is deterministic and free of side effects: a call
    that finishes leaves the memory holding the table exactly as it found
    it, a second call with the same reading on the memory the first one
    left returns the same pressure, and so do two calls in sequence. *)
Theorem C8_pure (fuel : nat) (adcReading : Z) (m m' : memory) (v : Z) :
  ConvertADCReadingToPressure fuel adcReading m = Done (v, m') ->
  m' = m /\
  ConvertADCReadingToPressure fuel adcReading m' = Done (v, m') /\
  bind (ConvertADCReadingToPressure fuel adcReading)
       (fun v1 =>
          bind (ConvertADCReadingToPressure fuel adcReading)
               (fun v2 => ret (v1, v2))) m
    = Done ((v, v), m).
Proof.
  intros H.
  pose proof (preserves_Convert fuel adcReading m v m' H) as ->.
  split; [reflexivity|]. split; [assumption|].
  rewrite (bind_eq _ _ _ _ _ H). rewrite (bind_eq _ _ _ _ _ H). reflexivity.
Qed.

Lemma C8_pure_witness :
  pressureTable = pressureTable /\
  ConvertADCReadingToPressure 8 1800 pressureTable
    = Done (10416, pressureTable) /\
  bind (ConvertADCReadingToPressure 8 1800)
       (fun v1 =>
          bind (ConvertADCReadingToPressure 8 1800)
               (fun v2 => ret (v1, v2))) pressureTable
    = Done ((10416, 10416), pressureTable).
Proof.
  apply (C8_pure 8 1800 pressureTable pressureTable 10416). reflexivity.
Defined.

(** C9. The extrapolated value [slope * adcReading + intercept] (slope 6,
    intercept 1580 for the reference table) is computed in 64 bits and
    returned through a 32-bit variable: every out-of-range reading yields
    that value reduced modulo 2^32 into the [int] range; for the reading
    400000000 the 64-bit value 2400001580 does not fit and -1894965716 is
    returned; so the routine is not monotone over all [int] readings:
    20000 < 400000000, yet the pressure for 20000 is the larger one. *)
Theorem C9_narrowing (fuel : nat) (adcReading : Z) :
  (91 <= fuel)%nat ->
  in_int32 adcReading = true ->
  adcReading < 1696 \/ 14073 < adcReading ->
  least_squares fuel pressureTable = Done ((6, 1580), pressureTable) /\
  ConvertADCReadingToPressure fuel adcReading pressureTable
    = Done (cast_int32 (6 * adcReading + 1580), pressureTable) /\
  (cast_int32 (6 * adcReading + 1580) - (6 * adcReading + 1580))
    mod 2 ^ 32 = 0 /\
  in_int32 400000000 = true /\
  in_int32 (6 * 400000000 + 1580) = false /\
  ConvertADCReadingToPressure fuel 400000000 pressureTable
    = Done (6 * 400000000 + 1580 - 2 ^ 32, pressureTable) /\
  ConvertADCReadingToPressure fuel 20000 pressureTable
    = Done (121580, pressureTable) /\
  20000 < 400000000 /\
  6 * 400000000 + 1580 - 2 ^ 32 < 121580.
Proof.
  intros Hfuel Hr Hout.
  split; [exact (reference_fit fuel Hfuel)|].
  split; [exact (reference_extrapolation fuel adcReading Hfuel Hr Hout)|].
  split.
  { unfold cast_int32, cast_signed. change (32 - 1) with 31.
    rewrite (Z.mod_eq (6 * adcReading + 1580 + 2 ^ 31) (2 ^ 32)) by lia.
    match goal with
    | |- ?x mod _ = 0 =>
        replace x
          with (- ((6 * adcReading + 1580 + 2 ^ 31) / 2 ^ 32) * 2 ^ 32)
          by ring
    end.
    apply Z.mod_mul. lia. }
  split; [reflexivity|]. split; [reflexivity|].
  split; [exact (reference_extrapolation fuel 400000000 Hfuel eq_refl
                   ltac:(lia))|].
  split; [exact (reference_extrapolation fuel 20000 Hfuel eq_refl
                   ltac:(lia))|].
  split; [lia | reflexivity].
Qed.

Lemma C9_narrowing_witness :
  least_squares 91 pressureTable = Done ((6, 1580), pressureTable) /\
  ConvertADCReadingToPressure 91 (-400000000) pressureTable
    = Done (cast_int32 (6 * (-400000000) + 1580), pressureTable) /\
  (cast_int32 (6 * (-400000000) + 1580) - (6 * (-400000000) + 1580))
    mod 2 ^ 32 = 0 /\
  in_int32 400000000 = true /\
  in_int32 (6 * 400000000 + 1580) = false /\
  ConvertADCReadingToPressure 91 400000000 pressureTable
    = Done (6 * 400000000 + 1580 - 2 ^ 32, pressureTable) /\
  ConvertADCReadingToPressure 91 20000 pressureTable
    = Done (121580, pressureTable) /\
  20000 < 400000000 /\
  6 * 400000000 + 1580 - 2 ^ 32 < 121580.
Proof.
  apply (C9_narrowing 91 (-400000000)); [lia | reflexivity | left; lia].
Defined.

Lemma reached_1800 : reached 1800 pressureTable (mkSearch 0 1 0 0 0).
Proof.
  assert (H0 : reached 1800 pressureTable (mkSearch 0 90 45 0 0)).
  { apply reached_init; [|reflexivity].
    exists (mkEntry 10000 1696), (mkEntry 100000 14073).
    repeat split; simpl; lia. }
  assert (H1 : reached 1800 pressureTable (mkSearch 0 45 22 0 0))
    by (apply (reached_step _ _ _ _ H0); reflexivity).
  assert (H2 : reached 1800 pressureTable (mkSearch 0 22 11 0 0))
    by (apply (reached_step _ _ _ _ H1); reflexivity).
  assert (H3 : reached 1800 pressureTable (mkSearch 0 11 5 0 0))
    by (apply (reached_step _ _ _ _ H2); reflexivity).
  assert (H4 : reached 1800 pressureTable (mkSearch 0 5 2 0 0))
    by (apply (reached_step _ _ _ _ H3); reflexivity).
  assert (H5 : reached 1800 pressureTable (mkSearch 0 2 1 0 0))
    by (apply (reached_step _ _ _ _ H4); reflexivity).
  apply (reached_step _ _ _ _ H5); reflexivity.
Defined.

(** C10. Whenever the interpolation branch executes, that is in a state at
    the head of the loop in which the entry at [midPoint] differs from the
    reading and [midPoint == searchWindowStart], the window consists of two
    adjacent indices, [searchWindowEnd == searchWindowStart + 1], and the
    entries at its two ends strictly bracket the reading. *)
Theorem C10_bracketing (adcReading : Z) (m : memory) (s : search) (a : Z) :
  reached adcReading m s ->
  readingFound s = 0 ->
  load_adc (midPoint s) m = Done (a, m) ->
  adcReading <> a ->
  midPoint s = searchWindowStart s ->
  searchWindowEnd s = searchWindowStart s + 1 /\
  exists e1 e2,
    entry_at m (searchWindowStart s) = Some e1 /\
    entry_at m (searchWindowEnd s) = Some e2 /\
    adc e1 < adcReading < adc e2.
Proof.
  intros Hreach Hrf _ _ Hcol.
  destruct (reached_invariant _ _ _ Hreach)
    as [[_ (Hse & _ & Hmid & Hbr)]|[H1 _]]; [|lia].
  split; [rewrite Hmid in Hcol; lia | exact Hbr].
Qed.

Lemma C10_bracketing_witness :
  searchWindowEnd (mkSearch 0 1 0 0 0)
    = searchWindowStart (mkSearch 0 1 0 0 0) + 1 /\
  exists e1 e2,
    entry_at pressureTable (searchWindowStart (mkSearch 0 1 0 0 0)) = Some e1
    /\
    entry_at pressureTable (searchWindowEnd (mkSearch 0 1 0 0 0)) = Some e2 /\
    adc e1 < 1800 < adc e2.
Proof.
  apply (C10_bracketing 1800 pressureTable (mkSearch 0 1 0 0 0) 1696);
    [exact reached_1800 | reflexivity | reflexivity | lia | reflexivity].
Defined.

(** * Further properties of the routine *)

(** ** What a finished run has read *)

Lemma cast_uint64_small z : 0 <= z < 2 ^ 64 -> cast_uint64 z = z.
Proof. intros H. unfold cast_uint64. apply Z.mod_small. exact H. Qed.

Lemma sum_loop_continues i :
  0 <= i <= 90 ->
  (cast_uint64 i <=? cast_uint64 (TABLE_ENTRIES - 1)) = true.
Proof.
  intros H. rewrite cast_uint64_small by lia.
  change (cast_uint64 (TABLE_ENTRIES - 1)) with 90. apply Z.leb_le. lia.
Qed.

Lemma sum_loop_stops :
  (cast_uint64 91 <=? cast_uint64 (TABLE_ENTRIES - 1)) = false.
Proof. reflexivity. Qed.

(** A finished execution of the body of the [for] loop has found an entry
    at its index, and the two [int] products did not overflow. *)
Lemma sum_body_Done i acc m y :
  sum_body i acc m = Done y ->
  exists e,
    entry_at m i = Some e /\
    in_int32 (adc e * adc e) = true /\
    in_int32 (adc e * Z.quot (pressure e) FIXED_POINT_ARITH) = true.
Proof.
  unfold sum_body, mul32. intros H.
  apply bind_Done in H as (a & m1 & H1 & H).
  apply load_adc_Done in H1 as (-> & e & He & ->).
  apply bind_Done in H as (p & m1 & H1 & H).
  apply load_pressure_Done in H1 as (-> & e' & He' & ->).
  rewrite He in He'. injection He' as <-.
  apply bind_Done in H as (pu & m1 & H1 & H).
  apply div32_Done in H1 as (-> & -> & _).
  apply bind_Done in H as (ap & m1 & H1 & H).
  apply check32_Done in H1 as (-> & -> & Hap).
  apply bind_Done in H as (sxy & m1 & H1 & H).
  apply preserves_add64 in H1 as ->.
  apply bind_Done in H as (a' & m1 & H1 & H).
  apply preserves_load_adc in H1 as ->.
  apply bind_Done in H as (sx & m1 & H1 & H).
  apply preserves_add64 in H1 as ->.
  apply bind_Done in H as (p' & m1 & H1 & H).
  apply preserves_load_pressure in H1 as ->.
  apply bind_Done in H as (pu' & m1 & H1 & H).
  apply preserves_div32 in H1 as ->.
  apply bind_Done in H as (sy & m1 & H1 & H).
  apply preserves_add64 in H1 as ->.
  apply bind_Done in H as (a1 & m1 & H1 & H).
  apply load_adc_Done in H1 as (-> & e1 & He1 & ->).
  apply bind_Done in H as (a2 & m1 & H1 & H).
  apply load_adc_Done in H1 as (-> & e2 & He2 & ->).
  rewrite He in He1, He2. injection He1 as <-. injection He2 as <-.
  apply bind_Done in H as (aa & m1 & H1 & H).
  apply check32_Done in H1 as (-> & -> & Haa).
  exists e. auto.
Qed.

(** A finished [for] loop has executed its body at every index from where
    it started up to 90. *)
Lemma sum_loop_Done_bodies fuel : forall i acc m x,
  sum_loop fuel i acc m = Done x ->
  0 <= i <= 91 ->
  forall j, i <= j <= 90 -> exists accj y, sum_body j accj m = Done y.
Proof.
  induction fuel as [|fuel IH]; intros i acc m x H Hi j Hj;
    cbn [sum_loop] in H; rewrite (sum_loop_continues i ltac:(lia)) in H.
  - discriminate H.
  - apply bind_Done in H as (acc1 & m1 & H1 & H).
    pose proof (preserves_sum_body _ _ _ _ _ H1) as ->.
    apply bind_Done in H as (i1 & m1 & H2 & H).
    unfold add32 in H2. apply check32_Done in H2 as (-> & -> & _).
    rewrite cast_int16_small in H by lia.
    destruct (Z.eq_dec j i) as [->|Hne]; [eauto|].
    apply (IH _ _ _ _ H); lia.
Qed.

Lemma least_squares_Done_bodies fuel m x :
  least_squares fuel m = Done x ->
  forall j, 0 <= j <= 90 -> exists accj y, sum_body j accj m = Done y.
Proof.
  unfold least_squares. intros H j Hj.
  apply bind_Done in H as (acc & m1 & H1 & _).
  exact (sum_loop_Done_bodies _ _ _ _ _ H1 ltac:(lia) j ltac:(lia)).
Qed.

Lemma out_of_range_Done_bodies fuel r m x :
  out_of_range_path fuel r m = Done x ->
  forall j, 0 <= j <= 90 -> exists accj y, sum_body j accj m = Done y.
Proof.
  unfold out_of_range_path. intros H.
  apply bind_Done in H as (fit & m1 & H1 & _).
  exact (least_squares_Done_bodies _ _ _ H1).
Qed.

(** X1. The routine indexes the array it is handed with the size of the
    compiled-in table: a run that finishes has been given at least 91
    entries, so on a shorter array (an empty one included) it never
    finishes normally. *)
Theorem Convert_needs_full_table (fuel : nat) (adcReading : Z)
  (m m' : memory) (v : Z) :
  ConvertADCReadingToPressure fuel adcReading m = Done (v, m') ->
  (91 <= length m)%nat.
Proof.
  intros H.
  assert (Hlast : exists e, entry_at m 90 = Some e).
  { unfold ConvertADCReadingToPressure in H.
    apply bind_Done in H as (lo & m1 & H1 & H).
    apply preserves_load_adc in H1 as ->.
    assert (Hout : out_of_range_path fuel adcReading m = Done (v, m') ->
                   exists e, entry_at m 90 = Some e).
    { intros Ho.
      destruct (out_of_range_Done_bodies _ _ _ _ Ho 90 ltac:(lia))
        as (accj & y & Hb).
      apply sum_body_Done in Hb as (e & He & _). eauto. }
    destruct (lo <=? adcReading); [|auto].
    apply bind_Done in H as (hi & m1 & H1 & H).
    apply load_adc_Done in H1 as (-> & e & He & _). eauto. }
  destruct Hlast as [e He]. apply entry_at_bound in He. lia.
Qed.

Lemma Convert_needs_full_table_witness : (91 <= length pressureTable)%nat.
Proof.
  apply (Convert_needs_full_table 8 1800 pressureTable pressureTable 10416).
  reflexivity.
Defined.

(** X2. The extrapolation multiplies each [adc] value with itself in
    [int]: whenever the out-of-range path finishes, every [adc] value
    among the 91 entries read is at most 46340 (the largest integer whose
    square fits 32 bits), although the field can hold up to 65535. *)
Theorem extrapolation_adc_limit (fuel : nat) (adcReading : Z)
  (m m' : memory) (v : Z) (i : Z) (e : PressureTableEntry) :
  out_of_range_path fuel adcReading m = Done (v, m') ->
  0 <= i <= 90 ->
  entry_at m i = Some e ->
  adc e <= 46340.
Proof.
  intros H Hi He.
  destruct (out_of_range_Done_bodies _ _ _ _ H i Hi) as (accj & y & Hb).
  apply sum_body_Done in Hb as (e' & He' & Hsq & _).
  rewrite He in He'. injection He' as <-.
  apply in_int32_iff in Hsq. nia.
Qed.

Lemma extrapolation_adc_limit_witness : adc (mkEntry 100000 14073) <= 46340.
Proof.
  apply (extrapolation_adc_limit 91 1000 pressureTable pressureTable 7580 90);
    [vm_compute; reflexivity | lia | reflexivity].
Defined.

(** ** Both loops are bounded whatever the memory holds *)

Create HintDb budget.

Lemma within_budget_ret {A} (a : A) : within_budget (ret a).
Proof. intros m. discriminate. Qed.

Lemma within_budget_bind {A B} (c : M A) (k : A -> M B) :
  within_budget c -> (forall a, within_budget (k a)) ->
  within_budget (bind c k).
Proof.
  intros Hc Hk m. unfold bind.
  destruct (c m) as [[a m1]|f] eqn:E; [apply Hk|].
  intros H. injection H as ->. exact (Hc m E).
Qed.

Lemma fault_within_budget {A B} (c : M A) m f :
  within_budget c -> c m = Fault f -> @Fault B f <> Fault OutOfFuel.
Proof. intros Hc E H. injection H as ->. exact (Hc m E). Qed.

Lemma within_budget_load_entry i : within_budget (load_entry i).
Proof. intros m. unfold load_entry. destruct (entry_at m i); discriminate. Qed.

Lemma within_budget_check32 z : within_budget (check32 z).
Proof. intros m. unfold check32. destruct (in_int32 z); discriminate. Qed.

Lemma within_budget_check64 z : within_budget (check64 z).
Proof. intros m. unfold check64. destruct (in_int64 z); discriminate. Qed.

Lemma within_budget_div32 a b : within_budget (div32 a b).
Proof.
  unfold div32. destruct (b =? 0);
    [intros m; discriminate | apply within_budget_check32].
Qed.

Lemma within_budget_div64 a b : within_budget (div64 a b).
Proof.
  unfold div64. destruct (b =? 0);
    [intros m; discriminate | apply within_budget_check64].
Qed.

Lemma within_budget_div_TABLE_SIZE x : within_budget (div_TABLE_SIZE x).
Proof.
  unfold div_TABLE_SIZE. destruct (TABLE_ENTRIES =? 0); intros m; discriminate.
Qed.

Lemma within_budget_arith32 a b :
  within_budget (add32 a b) /\ within_budget (sub32 a b) /\
  within_budget (mul32 a b).
Proof. repeat split; apply within_budget_check32. Qed.

Lemma within_budget_arith64 a b :
  within_budget (add64 a b) /\ within_budget (sub64 a b) /\
  within_budget (mul64 a b).
Proof. repeat split; apply within_budget_check64. Qed.

Lemma within_budget_add32 a b : within_budget (add32 a b).
Proof. apply within_budget_arith32. Qed.
Lemma within_budget_sub32 a b : within_budget (sub32 a b).
Proof. apply within_budget_arith32. Qed.
Lemma within_budget_mul32 a b : within_budget (mul32 a b).
Proof. apply within_budget_arith32. Qed.
Lemma within_budget_add64 a b : within_budget (add64 a b).
Proof. apply within_budget_arith64. Qed.
Lemma within_budget_sub64 a b : within_budget (sub64 a b).
Proof. apply within_budget_arith64. Qed.
Lemma within_budget_mul64 a b : within_budget (mul64 a b).
Proof. apply within_budget_arith64. Qed.

#[local] Hint Resolve within_budget_ret within_budget_load_entry
  within_budget_check32 within_budget_check64 within_budget_div32
  within_budget_div64 within_budget_div_TABLE_SIZE
  within_budget_add32 within_budget_sub32 within_budget_mul32
  within_budget_add64 within_budget_sub64 within_budget_mul64 : budget.

Ltac budget_step :=
  first
    [ solve [ auto with budget ]
    | apply within_budget_bind; [ | intro ]
    | match goal with
      | |- within_budget (if ?b then _ else _) => destruct b
      end ].

Ltac budget_all := repeat budget_step.

Lemma within_budget_load_adc i : within_budget (load_adc i).
Proof. unfold load_adc. budget_all. Qed.

Lemma within_budget_load_pressure i : within_budget (load_pressure i).
Proof. unfold load_pressure. budget_all. Qed.

#[local] Hint Resolve within_budget_load_adc within_budget_load_pressure
  : budget.

Lemma within_budget_mid_of s e : within_budget (mid_of s e).
Proof. unfold mid_of. budget_all. Qed.

Lemma within_budget_interpolate r P1 P2 A1 A2 :
  within_budget (interpolate r P1 P2 A1 A2).
Proof. unfold interpolate. budget_all. Qed.

#[local] Hint Resolve within_budget_mid_of within_budget_interpolate : budget.

Lemma within_budget_loop_body r s : within_budget (loop_body r s).
Proof. unfold loop_body. budget_all. Qed.

Lemma within_budget_sum_body i acc : within_budget (sum_body i acc).
Proof. unfold sum_body. budget_all. Qed.

Lemma within_budget_means_of acc : within_budget (means_of acc).
Proof. unfold means_of. budget_all. Qed.

Lemma within_budget_slope_of mn : within_budget (slope_of mn).
Proof. unfold slope_of. budget_all. Qed.

Lemma within_budget_intercept_of mn : within_budget (intercept_of mn).
Proof. unfold intercept_of. budget_all. Qed.

Lemma within_budget_evaluate_line a b r : within_budget (evaluate_line a b r).
Proof. unfold evaluate_line. budget_all. Qed.

#[local] Hint Resolve within_budget_loop_body within_budget_sum_body
  within_budget_means_of within_budget_slope_of within_budget_intercept_of
  within_budget_evaluate_line : budget.

(** The search needs at most one iteration more than the binary
    logarithm of its window, on any memory: a fault may end it, the budget
    does not. *)
Lemma search_loop_within_budget k : forall fuel r s m,
  searching r m s -> window s <= 2 ^ Z.of_nat k -> (k < fuel)%nat ->
  search_loop fuel r s m <> Fault OutOfFuel.
Proof.
  induction k as [|k IH]; intros fuel r s m Hs Hw Hfuel;
    (destruct fuel as [|fuel]; [lia|]); cbn [search_loop];
    (destruct (readingFound s =? 0); [|discriminate]); unfold bind;
    destruct (loop_body r s m) as [[s1 m1]|f] eqn:H1;
    try exact (fault_within_budget _ _ _ (within_budget_loop_body r s) H1);
    destruct (loop_body_step _ _ _ _ _ Hs H1)
      as [-> [(_ & Hs1 & Hlt & Hhalf)|(Hrf1 & _)]].
  - change (2 ^ Z.of_nat 0) with 1 in Hw. lia.
  - destruct fuel; cbn [search_loop]; rewrite Hrf1; discriminate.
  - apply IH; [assumption | | lia].
    rewrite Nat2Z.inj_succ, Z.pow_succ_r in Hw by lia. lia.
  - destruct fuel; cbn [search_loop]; rewrite Hrf1; discriminate.
Qed.

(** The [for] loop runs its body 91 times at most. *)
Lemma sum_loop_within_budget fuel : forall i acc m,
  0 <= i <= 91 -> (Z.to_nat (91 - i) <= fuel)%nat ->
  sum_loop fuel i acc m <> Fault OutOfFuel.
Proof.
  induction fuel as [|fuel IH]; intros i acc m Hi Hfuel; cbn [sum_loop].
  - assert (i = 91) by lia. subst i. rewrite sum_loop_stops. discriminate.
  - destruct (Z.eq_dec i 91) as [->|Hne].
    { rewrite sum_loop_stops. discriminate. }
    rewrite (sum_loop_continues i ltac:(lia)). unfold bind.
    destruct (sum_body i acc m) as [[acc1 m1]|f] eqn:H1;
      [|exact (fault_within_budget _ _ _ (within_budget_sum_body i acc) H1)].
    unfold add32, check32.
    destruct (in_int32 (i + 1)); [|discriminate].
    unfold ret. rewrite cast_int16_small by lia. apply IH; lia.
Qed.

Lemma least_squares_within_budget fuel :
  (91 <= fuel)%nat -> within_budget (least_squares fuel).
Proof.
  intros Hfuel. unfold least_squares.
  apply within_budget_bind; [|intro; budget_all].
  intros m. apply sum_loop_within_budget; lia.
Qed.

Lemma out_of_range_path_within_budget fuel r :
  (91 <= fuel)%nat -> within_budget (out_of_range_path fuel r).
Proof.
  intros Hfuel. unfold out_of_range_path.
  apply within_budget_bind; [|intro; budget_all].
  now apply least_squares_within_budget.
Qed.

Lemma in_range_path_within_budget fuel r m lo hi :
  (8 <= fuel)%nat ->
  entry_at m 0 = Some lo -> entry_at m TABLE_SIZE = Some hi ->
  adc lo <= r <= adc hi ->
  in_range_path fuel r m <> Fault OutOfFuel.
Proof.
  intros Hfuel Hlo Hhi Hr. unfold in_range_path.
  rewrite (bind_eq _ _ _ _ _ (search_init_value m)).
  rewrite (bind_eq _ _ _ _ _ (load_adc_entry _ _ _ Hlo)).
  destruct (Z.eqb_spec r (adc lo)) as [_|Hne0];
    [apply within_budget_load_pressure|].
  rewrite (bind_eq _ _ _ _ _ (load_adc_entry _ _ _ Hhi)).
  destruct (Z.eqb_spec r (adc hi)) as [_|HneN];
    [apply within_budget_load_pressure|].
  unfold bind.
  destruct (search_loop fuel r (mkSearch 0 90 45 0 0) m) as [[s m1]|f] eqn:Hs;
    [discriminate|].
  intros H. injection H as ->. revert Hs.
  apply (search_loop_within_budget 7); [| |lia].
  - apply enters_search_initial. exists lo, hi. repeat split; auto; lia.
  - unfold window. simpl. lia.
Qed.

(** X3. The routine terminates on every reading and every memory,
    well-formed or not: with a budget of 91 iterations for its loops it
    never runs out of budget (it finishes or stops with one of the other
    faults), because the search window halves and the summation counts up
    to a constant whatever the entries hold. *)
Theorem Convert_terminates (fuel : nat) (adcReading : Z) (m : memory) :
  (91 <= fuel)%nat ->
  ConvertADCReadingToPressure fuel adcReading m <> Fault OutOfFuel.
Proof.
  intros Hfuel. unfold ConvertADCReadingToPressure. unfold bind at 1.
  destruct (load_adc 0 m) as [[a0 m1]|f] eqn:H0;
    [|exact (fault_within_budget _ _ _ (within_budget_load_adc 0) H0)].
  apply load_adc_Done in H0 as (-> & lo & Hlo & ->).
  destruct (Z.leb_spec (adc lo) adcReading) as [Hl|Hl];
    [|now apply out_of_range_path_within_budget].
  unfold bind at 1.
  destruct (load_adc TABLE_SIZE m) as [[aN m1]|f] eqn:HN;
    [|exact (fault_within_budget _ _ _ (within_budget_load_adc TABLE_SIZE)
               HN)].
  apply load_adc_Done in HN as (-> & hi & Hhi & ->).
  destruct (Z.leb_spec adcReading (adc hi)) as [Hh|Hh];
    [|now apply out_of_range_path_within_budget].
  apply (in_range_path_within_budget fuel adcReading m lo hi); auto; lia.
Qed.

Lemma Convert_terminates_witness :
  ConvertADCReadingToPressure 91 5 [mkEntry 7 3; mkEntry 2 9]
    <> Fault OutOfFuel.
Proof.
  apply (Convert_terminates 91 5 [mkEntry 7 3; mkEntry 2 9]). lia.
Defined.

(** ** In-range results *)

(** X4. Whatever the table holds, sorted or not, an in-range result is
    never made up: it is the pressure of an entry whose [adc] equals the
    reading, or the interpolation between two entries at adjacent indices
    whose [adc] values strictly bracket the reading; and the memory is
    left as it was. *)
Theorem in_range_result_sound (fuel : nat) (adcReading : Z) (m m' : memory)
  (v : Z) (lo hi : PressureTableEntry) :
  entry_at m 0 = Some lo ->
  entry_at m TABLE_SIZE = Some hi ->
  adc lo <= adcReading <= adc hi ->
  ConvertADCReadingToPressure fuel adcReading m = Done (v, m') ->
  m' = m /\
  ((exists i e,
       entry_at m i = Some e /\ adc e = adcReading /\ v = pressure e) \/
   (exists i e1 e2,
       entry_at m i = Some e1 /\ entry_at m (i + 1) = Some e2 /\
       adc e1 < adcReading < adc e2 /\
       v = interpolation_formula e1 e2 adcReading)).
Proof.
  intros Hlo Hhi Hr H.
  pose proof (preserves_Convert _ _ _ _ _ H) as Hm. subst m'.
  split; [reflexivity|].
  rewrite (Convert_in_range m lo hi Hlo Hhi fuel adcReading Hr) in H.
  unfold in_range_path in H.
  rewrite (bind_eq _ _ _ _ _ (search_init_value m)) in H.
  rewrite (bind_eq _ _ _ _ _ (load_adc_entry _ _ _ Hlo)) in H.
  destruct (Z.eqb_spec adcReading (adc lo)) as [Heq|Hne0].
  { rewrite (load_pressure_entry _ _ _ Hlo) in H. injection H as <-.
    left. exists 0, lo. auto. }
  rewrite (bind_eq _ _ _ _ _ (load_adc_entry _ _ _ Hhi)) in H.
  destruct (Z.eqb_spec adcReading (adc hi)) as [Heq|HneN].
  { rewrite (load_pressure_entry _ _ _ Hhi) in H. injection H as <-.
    left. exists TABLE_SIZE, hi. auto. }
  apply bind_Done in H as (s' & m1 & Hloop & H).
  apply ret_Done in H as [Hv _]. subst v.
  assert (Hreach : reached adcReading m (mkSearch 0 90 45 0 0)).
  { apply reached_init; [|reflexivity]. exists lo, hi.
    repeat split; auto; lia. }
  destruct (search_loop_reached _ _ _ _ _ _ Hreach Hloop) as (_ & Hr' & Hrf).
  destruct (reached_invariant _ _ _ Hr')
    as [[H0 _] | [_ [(e & He & Hadc & Hp)
                    | (Hw & e1 & e2 & He1 & He2 & Hb & Hp)]]]; [lia| |].
  - left. exists (midPoint s'), e. auto.
  - right. exists (searchWindowStart s'), e1, e2. rewrite <- Hw.
    repeat split; auto; lia.
Qed.

Lemma in_range_result_sound_witness :
  pressureTable = pressureTable /\
  ((exists i e,
       entry_at pressureTable i = Some e /\ adc e = 1800 /\
       10416 = pressure e) \/
   (exists i e1 e2,
       entry_at pressureTable i = Some e1 /\
       entry_at pressureTable (i + 1) = Some e2 /\
       adc e1 < 1800 < adc e2 /\
       10416 = interpolation_formula e1 e2 1800)).
Proof.
  apply (in_range_result_sound 8 1800 pressureTable pressureTable 10416
           (mkEntry 10000 1696) (mkEntry 100000 14073));
    [reflexivity | reflexivity | simpl; lia | reflexivity].
Defined.

(** X5. On every well-formed table (91 entries, strictly ascending, in
    range), not only the compiled-in one, every in-range reading is
    converted without fault within 8 iterations, and the pressure returned
    lies between the pressures of the first and the last entry. *)
Theorem in_range_result_bounded (fuel : nat) (adcReading : Z) (m : memory)
  (lo hi : PressureTableEntry) :
  table_ok m = true ->
  (8 <= fuel)%nat ->
  entry_at m 0 = Some lo ->
  entry_at m TABLE_SIZE = Some hi ->
  adc lo <= adcReading <= adc hi ->
  exists v,
    ConvertADCReadingToPressure fuel adcReading m = Done (v, m) /\
    pressure lo <= v <= pressure hi.
Proof.
  intros Hok Hfuel Hlo Hhi Hr.
  destruct (in_range_located m Hok lo hi Hlo Hhi fuel adcReading Hfuel Hr)
    as (v & Hv & Hloc).
  exists v. split.
  { rewrite (Convert_in_range m lo hi Hlo Hhi fuel adcReading Hr).
    exact Hv. }
  destruct Hloc as [(i & e1 & e2 & H1 & H2 & Hb & ->) | (e & He & _ & ->)].
  - pose proof (located_value_bounds m Hok i e1 e2 adcReading H1 H2 Hb).
    pose proof (entry_at_bound _ _ _ H1) as B1.
    pose proof (entry_at_bound _ _ _ H2) as B2.
    rewrite (m_length m Hok) in B1, B2. rewrite TABLE_SIZE_value in Hhi.
    destruct (entry_at_le m Hok 0 i lo e1 Hlo H1 ltac:(lia)) as [_ L1].
    destruct (entry_at_le m Hok (i + 1) 90 e2 hi H2 Hhi ltac:(lia))
      as [_ L2].
    lia.
  - rewrite Hhi in He. injection He as <-.
    destruct (entry_at_le m Hok 0 TABLE_SIZE lo hi Hlo Hhi
                ltac:(rewrite TABLE_SIZE_value; lia)) as [_ L]. lia.
Qed.

Lemma in_range_result_bounded_witness :
  exists v,
    ConvertADCReadingToPressure 8 9000 pressureTable
      = Done (v, pressureTable) /\
    pressure (mkEntry 10000 1696) <= v <= pressure (mkEntry 100000 14073).
Proof.
  apply (in_range_result_bounded 8 9000 pressureTable
           (mkEntry 10000 1696) (mkEntry 100000 14073));
    [vm_compute; reflexivity | lia | reflexivity | reflexivity
    | simpl; lia].
Defined.

Lemma truncation_error p d off :
  0 <= p -> 0 < d -> 0 <= off ->
  Z.quot p d * off <= Z.quot (p * off) d /\
  (0 < off -> Z.quot (p * off) d < Z.quot p d * off + off).
Proof.
  intros Hp Hd Hoff.
  rewrite !Z.quot_div_nonneg by nia.
  pose proof (Z.div_mod p d ltac:(lia)) as Hdm.
  pose proof (Z.mod_pos_bound p d Hd) as Hrem.
  pose proof (Z.div_pos p d Hp Hd) as Hq.
  revert Hdm Hrem Hq. generalize (p / d) (p mod d). intros q rem Hdm Hrem Hq.
  subst p. split.
  - apply Z.div_le_lower_bound; [lia | nia].
  - intros Hpos. apply Z.div_lt_upper_bound; [lia | nia].
Qed.

(** X6. Dividing before multiplying costs precision but never overshoots:
    on a well-formed table, for a reading strictly between adjacent
    entries, the pressure returned is at most the value of the
    interpolation with the multiplication taken first, and falls short of
    it by less than the offset [adcReading - ADC1]. *)
Theorem interpolation_truncation (fuel : nat) (adcReading : Z) (m : memory)
  (i : Z) (e1 e2 : PressureTableEntry) :
  table_ok m = true ->
  (8 <= fuel)%nat ->
  entry_at m i = Some e1 ->
  entry_at m (i + 1) = Some e2 ->
  adc e1 < adcReading < adc e2 ->
  exists v,
    ConvertADCReadingToPressure fuel adcReading m = Done (v, m) /\
    v <= multiply_first e1 e2 adcReading /\
    multiply_first e1 e2 adcReading < v + (adcReading - adc e1).
Proof.
  intros Hok Hfuel H1 H2 Hb.
  destruct (m_entry_exists m Hok 0 ltac:(lia)) as [lo Hlo].
  destruct (m_entry_exists m Hok 90 ltac:(lia)) as [hi Hhi0].
  assert (Hhi : entry_at m TABLE_SIZE = Some hi)
    by (rewrite TABLE_SIZE_value; exact Hhi0).
  pose proof (entry_at_bound _ _ _ H1) as B1.
  pose proof (entry_at_bound _ _ _ H2) as B2.
  rewrite (m_length m Hok) in B1, B2.
  destruct (entry_at_le m Hok 0 i lo e1 Hlo H1 ltac:(lia)) as [L1 _].
  destruct (entry_at_le m Hok (i + 1) 90 e2 hi H2 Hhi0 ltac:(lia))
    as [L2 _].
  assert (Hr : adc lo <= adcReading <= adc hi) by lia.
  destruct (in_range_located m Hok lo hi Hlo Hhi fuel adcReading Hfuel Hr)
    as (v & Hv & Hloc).
  exists v. split.
  { rewrite (Convert_in_range m lo hi Hlo Hhi fuel adcReading Hr).
    exact Hv. }
  rewrite (located_between m Hok i e1 e2 adcReading v H1 H2 Hb Hloc).
  destruct (entry_at_lt m Hok i (i + 1) e1 e2 H1 H2 ltac:(lia)) as [HA HP].
  destruct (truncation_error (pressure e2 - pressure e1) (adc e2 - adc e1)
              (adcReading - adc e1) ltac:(lia) ltac:(lia) ltac:(lia))
    as [Hle Hlt].
  specialize (Hlt ltac:(lia)).
  unfold multiply_first, interpolation_formula. lia.
Qed.

Lemma interpolation_truncation_witness :
  exists v,
    ConvertADCReadingToPressure 8 1800 pressureTable
      = Done (v, pressureTable) /\
    v <= multiply_first (mkEntry 10000 1696) (mkEntry 11000 1909) 1800 /\
    multiply_first (mkEntry 10000 1696) (mkEntry 11000 1909) 1800
      < v + (1800 - adc (mkEntry 10000 1696)).
Proof.
  apply (interpolation_truncation 8 1800 pressureTable 0
           (mkEntry 10000 1696) (mkEntry 11000 1909));
    [vm_compute; reflexivity | lia | reflexivity | reflexivity
    | simpl; lia].
Defined.

(** ** The out-of-range path on the compiled-in table *)

(** X7. The fitted line does not continue the table at its ends: for the
    readings just below the table, 1404 to 1695, and just above it, 14074
    to 16403, the routine returns [6 * adcReading + 1580], a pressure
    strictly inside the range 10000..100000 that the table covers, so the
    pressure jumps back when the reading crosses either end of the
    table. *)
Theorem extrapolation_overlaps_table (fuel : nat) (adcReading : Z) :
  (91 <= fuel)%nat ->
  1404 <= adcReading <= 1695 \/ 14074 <= adcReading <= 16403 ->
  exists v,
    ConvertADCReadingToPressure fuel adcReading pressureTable
      = Done (v, pressureTable) /\
    v = 6 * adcReading + 1580 /\
    10000 < v < 100000.
Proof.
  intros Hfuel Hr.
  assert (Hint : in_int32 adcReading = true) by (apply in_int32_iff; lia).
  exists (6 * adcReading + 1580). split; [|split; [reflexivity | lia]].
  rewrite (reference_extrapolation fuel adcReading Hfuel Hint ltac:(lia)).
  rewrite cast_int32_small by lia. reflexivity.
Qed.

Lemma extrapolation_overlaps_table_witness :
  exists v,
    ConvertADCReadingToPressure 91 1695 pressureTable
      = Done (v, pressureTable) /\
    v = 6 * 1695 + 1580 /\
    10000 < v < 100000.
Proof.
  apply (extrapolation_overlaps_table 91 1695); [lia | left; lia].
Defined.

Lemma cast_int64_uint64 y :
  - 2 ^ 63 <= y < 2 ^ 63 -> cast_int64 (cast_uint64 y) = y.
Proof.
  intros Hy. unfold cast_int64, cast_signed, cast_uint64.
  change (64 - 1) with 63.
  rewrite Z.add_mod_idemp_l by lia. rewrite Z.mod_small; lia.
Qed.

(** X8. What [x / TABLE_SIZE] computes for a 64-bit [x]: the macro is
    expanded without parentheses and the division is unsigned, so a
    non-negative [x] yields [x / 91 - 1], one less than the quotient by
    the number of entries, and a negative [x] is first taken modulo 2^64
    and yields [(x + 2^64) / 91 - 1]. *)
Theorem div_TABLE_SIZE_value (x : Z) (m : memory) :
  - 2 ^ 63 <= x <= 2 ^ 63 - 1 ->
  div_TABLE_SIZE x m
    = Done ((if x <? 0 then x + 2 ^ 64 else x) / 91 - 1, m).
Proof.
  intros Hx. unfold div_TABLE_SIZE. change TABLE_ENTRIES with 91.
  change (91 =? 0) with false. cbv iota. unfold ret.
  assert (Hu : cast_uint64 x = if x <? 0 then x + 2 ^ 64 else x).
  { unfold cast_uint64. destruct (Z.ltb_spec x 0).
    - rewrite <- (Z.mod_small (x + 2 ^ 64) (2 ^ 64)) by lia.
      rewrite <- (Z.mod_add x 1 (2 ^ 64)) by lia.
      now rewrite Z.mul_1_l.
    - apply Z.mod_small. lia. }
  rewrite Hu. rewrite cast_int64_uint64; [reflexivity|].
  destruct (Z.ltb_spec x 0); lia.
Qed.

Lemma div_TABLE_SIZE_value_witness :
  div_TABLE_SIZE 701799 pressureTable
    = Done ((if 701799 <? 0 then 701799 + 2 ^ 64 else 701799) / 91 - 1,
            pressureTable).
Proof.
  apply (div_TABLE_SIZE_value 701799 pressureTable). lia.
Defined.

(** ** The interactive harness *)

Lemma reference_total fuel r :
  (91 <= fuel)%nat -> in_int32 r = true ->
  exists v,
    ConvertADCReadingToPressure fuel r pressureTable
      = Done (v, pressureTable).
Proof.
  intros Hfuel Hr.
  destruct (Z_le_dec 1696 r) as [Hlo|Hlo];
    [destruct (Z_le_dec r 14073) as [Hhi|Hhi]|].
  - destruct (reference_located fuel r ltac:(lia) ltac:(lia))
      as (v & Hv & _). eauto.
  - eexists. apply reference_extrapolation; auto; lia.
  - eexists. apply reference_extrapolation; auto; lia.
Qed.

Lemma main_loop_stop fuel input z out m :
  z < 0 -> main_loop fuel input z out m = Done ((0, out), m).
Proof.
  intros Hz. destruct input; cbn [main_loop];
    destruct (Z.leb_spec 0 z); try lia; reflexivity.
Qed.

Lemma main_loop_negative fuel : forall pre r out z rest,
  (91 <= fuel)%nat ->
  Forall (fun x => 0 <= x /\ in_int32 x = true) (r :: pre) ->
  z < 0 ->
  exists vs,
    Forall2 (fun x v => ConvertADCReadingToPressure fuel x pressureTable
                        = Done (v, pressureTable)) (r :: pre) vs /\
    main_loop fuel (map Scanned pre ++ Scanned z :: rest) r out pressureTable
      = Done ((0, out ++ transcript (r :: pre) vs), pressureTable).
Proof.
  induction pre as [|r' pre IH]; intros r out z rest Hfuel Hok Hz;
    inversion Hok as [|? ? [Hr0 Hr] Hpre]; subst;
    destruct (reference_total fuel r Hfuel Hr) as [v Hv].
  - exists [v]. split; [repeat constructor; assumption|].
    cbn [map app main_loop]. destruct (Z.leb_spec 0 r); [|lia].
    rewrite (bind_eq _ _ _ _ _ Hv). now apply main_loop_stop.
  - destruct (IH r' (out ++ [Report r v; DivideHint FIXED_POINT_ARITH;
                              AskNext]) z rest Hfuel Hpre Hz)
      as (vs & Hvs & Hrun).
    exists (v :: vs). split; [constructor; assumption|].
    cbn [map app main_loop]. destruct (Z.leb_spec 0 r); [|lia].
    rewrite (bind_eq _ _ _ _ _ Hv). rewrite Hrun.
    rewrite <- app_assoc. reflexivity.
Qed.

Lemma main_loop_failed fuel : forall pre r out tail,
  (91 <= fuel)%nat ->
  Forall (fun x => 0 <= x /\ in_int32 x = true) (r :: pre) ->
  (forall z t, tail <> Scanned z :: t) ->
  exists vs,
    Forall2 (fun x v => ConvertADCReadingToPressure fuel x pressureTable
                        = Done (v, pressureTable)) (r :: pre) vs /\
    main_loop fuel (map Scanned pre ++ tail) r out pressureTable
      = Done ((-1, out ++ transcript (r :: pre) vs ++ [ScanError]),
              pressureTable).
Proof.
  induction pre as [|r' pre IH]; intros r out tail Hfuel Hok Htail;
    inversion Hok as [|? ? [Hr0 Hr] Hpre]; subst;
    destruct (reference_total fuel r Hfuel Hr) as [v Hv].
  - exists [v]. split; [repeat constructor; assumption|].
    cbn [map app]. destruct tail as [|[z|] t];
      [|exfalso; exact (Htail z t eq_refl)|];
      cbn [main_loop]; (destruct (Z.leb_spec 0 r); [|lia]);
      rewrite (bind_eq _ _ _ _ _ Hv); reflexivity.
  - destruct (IH r' (out ++ [Report r v; DivideHint FIXED_POINT_ARITH;
                              AskNext]) tail Hfuel Hpre Htail)
      as (vs & Hvs & Hrun).
    exists (v :: vs). split; [constructor; assumption|].
    cbn [map app main_loop]. destruct (Z.leb_spec 0 r); [|lia].
    rewrite (bind_eq _ _ _ _ _ Hv). rewrite Hrun.
    rewrite <- app_assoc. reflexivity.
Qed.

(** X9. [main] stops on the first negative number: when the numbers read
    are the non-negative [pre] followed by a negative one, it returns 0
    without fault and leaves the table unchanged; it has printed the
    prompt and then, for each number of [pre] in order, the report with
    the pressure the routine returns for it, the hint and the request for
    the next number; the negative number is not converted and whatever
    follows it is not read. *)
Theorem main_stops_on_negative (fuel : nat) (pre : list Z) (z : Z)
  (rest : list scan) :
  (91 <= fuel)%nat ->
  Forall (fun x => 0 <= x /\ in_int32 x = true) pre ->
  z < 0 ->
  exists vs,
    Forall2 (fun x v => ConvertADCReadingToPressure fuel x pressureTable
                        = Done (v, pressureTable)) pre vs /\
    main fuel (map Scanned pre ++ Scanned z :: rest) pressureTable
      = Done ((0, Prompt :: transcript pre vs), pressureTable).
Proof.
  intros Hfuel Hok Hz. destruct pre as [|r pre].
  - exists []. split; [constructor|]. cbn [map app main transcript].
    now apply main_loop_stop.
  - destruct (main_loop_negative fuel pre r [Prompt] z rest Hfuel Hok Hz)
      as (vs & Hvs & Hrun).
    exists vs. split; [assumption|]. cbn [map app main]. exact Hrun.
Qed.

Lemma main_stops_on_negative_witness :
  exists vs,
    Forall2 (fun x v => ConvertADCReadingToPressure 91 x pressureTable
                        = Done (v, pressureTable)) [1800; 1000] vs /\
    main 91 (map Scanned [1800; 1000] ++ Scanned (-1) :: [Scanned 7])
         pressureTable
      = Done ((0, Prompt :: transcript [1800; 1000] vs), pressureTable).
Proof.
  apply (main_stops_on_negative 91 [1800; 1000] (-1) [Scanned 7]);
    [lia | repeat constructor; lia | lia].
Defined.

(** X10. [main] gives up on the first read that fails: when the numbers
    read are the non-negative [pre] and the next [scanf] does not deliver
    a number (a matching failure, or the input has ended), it returns -1
    without fault; it has printed the prompt, the three lines for each
    number of [pre] in order, and last the error message. *)
Theorem main_stops_on_failed_read (fuel : nat) (pre : list Z)
  (tail : list scan) :
  (91 <= fuel)%nat ->
  Forall (fun x => 0 <= x /\ in_int32 x = true) pre ->
  (forall z t, tail <> Scanned z :: t) ->
  exists vs,
    Forall2 (fun x v => ConvertADCReadingToPressure fuel x pressureTable
                        = Done (v, pressureTable)) pre vs /\
    main fuel (map Scanned pre ++ tail) pressureTable
      = Done ((-1, Prompt :: transcript pre vs ++ [ScanError]),
              pressureTable).
Proof.
  intros Hfuel Hok Htail. destruct pre as [|r pre].
  - exists []. split; [constructor|]. cbn [map app main transcript].
    destruct tail as [|[z|] t];
      [reflexivity | exfalso; exact (Htail z t eq_refl) | reflexivity].
  - destruct (main_loop_failed fuel pre r [Prompt] tail Hfuel Hok Htail)
      as (vs & Hvs & Hrun).
    exists vs. split; [assumption|]. cbn [map app main]. exact Hrun.
Qed.

Lemma main_stops_on_failed_read_witness :
  exists vs,
    Forall2 (fun x v => ConvertADCReadingToPressure 91 x pressureTable
                        = Done (v, pressureTable)) [14073; 20000] vs /\
    main 91 (map Scanned [14073; 20000] ++ []) pressureTable
      = Done ((-1, Prompt :: transcript [14073; 20000] vs ++ [ScanError]),
              pressureTable).
Proof.
  apply (main_stops_on_failed_read 91 [14073; 20000] []);
    [lia | repeat constructor; lia | intros z t H; discriminate H].
Defined.

Lemma main_loop_total fuel : forall input r out,
  (91 <= fuel)%nat ->
  in_int32 r = true ->
  Forall (fun s => match s with
                   | Scanned z => in_int32 z = true
                   | ScanFailed => True
                   end) input ->
  ~ In ScanError out ->
  exists status out',
    main_loop fuel input r out pressureTable
      = Done ((status, out'), pressureTable) /\
    ((status = 0 /\ ~ In ScanError out') \/
     (status = -1 /\ In ScanError out')).
Proof.
  induction input as [|s input IH]; intros r out Hfuel Hr Hin Hout;
    cbn [main_loop]; (destruct (Z.leb_spec 0 r) as [Hr0|Hr0];
                      [|exists 0, out; split; [reflexivity | auto]]);
    destruct (reference_total fuel r Hfuel Hr) as [v Hv];
    rewrite (bind_eq _ _ _ _ _ Hv).
  - eexists _, _. split; [reflexivity|]. right. split; [reflexivity|].
    apply in_or_app. right. simpl. auto.
  - inversion Hin as [|? ? Hs Hrest]; subst. destruct s as [z|].
    + apply IH; try assumption.
      intros Hx. apply in_app_or in Hx as [Hx|Hx]; [auto|].
      simpl in Hx. intuition discriminate.
    + eexists _, _. split; [reflexivity|]. right. split; [reflexivity|].
      apply in_or_app. right. simpl. auto.
Qed.

(** X11. On every input whose numbers fit an [int], [main] finishes
    without fault and with the table unchanged; it returns 0 or -1, and it
    returns -1 exactly when it has printed the error message. *)
Theorem main_total (fuel : nat) (input : list scan) :
  (91 <= fuel)%nat ->
  Forall (fun s => match s with
                   | Scanned z => in_int32 z = true
                   | ScanFailed => True
                   end) input ->
  exists status out,
    main fuel input pressureTable = Done ((status, out), pressureTable) /\
    ((status = 0 /\ ~ In ScanError out) \/
     (status = -1 /\ In ScanError out)).
Proof.
  intros Hfuel Hin. unfold main. destruct input as [|[z|] rest].
  - eexists _, _. split; [reflexivity|]. right. simpl. auto.
  - inversion Hin as [|? ? Hz Hrest]; subst.
    apply main_loop_total; try assumption.
    simpl. intuition discriminate.
  - eexists _, _. split; [reflexivity|]. right. simpl. auto.
Qed.

Lemma main_total_witness :
  exists status out,
    main 91 [Scanned 3000; Scanned 15000; ScanFailed; Scanned 1]
         pressureTable
      = Done ((status, out), pressureTable) /\
    ((status = 0 /\ ~ In ScanError out) \/
     (status = -1 /\ In ScanError out)).
Proof.
  apply (main_total 91 [Scanned 3000; Scanned 15000; ScanFailed; Scanned 1]);
    [lia | repeat constructor].
Defined.
